(** * The notes store of the personal notes organizer (store.js)

    A shallow embedding of the localStorage-backed notes store: the
    persistence adapter ([readStore], [writeStore]), the normalizer
    ([normalizeNote]), and the public operations ([createNote], [getNote],
    [updateNote], [deleteNote], [toggleFavorite], [listNotes], [listTags]).

    JavaScript values are modelled by their JSON shape; [undefined] is the
    [None] of [option value].  What the browser provides (the clock, the
    random source, date parsing and the locale's collation) is gathered in
    the class [Host]. *)

From Stdlib Require Import List String Ascii ZArith NArith Lia Bool Arith.
From Stdlib Require Import DecimalString Permutation Sorted.
From stdpp Require Import base gmap strings.
Import ListNotations.
Local Open Scope string_scope.
Local Open Scope Z_scope.
Set Warnings "-register-all".

(* ================================================================= *)
(** ** Strings *)

(** A [string] is a sequence of UTF-16 code units, here the ones below 256
    (the Latin-1 block).  The white space of [String.prototype.trim] in that
    range: TAB, LF, VT, FF, CR, SPACE and NO-BREAK SPACE. *)
Definition is_white_space (c : ascii) : bool :=
  existsb (N.eqb (N_of_ascii c)) [9; 10; 11; 12; 13; 32; 160]%N.

Fixpoint trimStart (s : string) : string :=
  match s with
  | EmptyString => EmptyString
  | String c r => if is_white_space c then trimStart r else s
  end.

Fixpoint trimEnd (s : string) : string :=
  match s with
  | EmptyString => EmptyString
  | String c r =>
      match trimEnd r with
      | EmptyString => if is_white_space c then EmptyString else String c EmptyString
      | r' => String c r'
      end
  end.

(** [s.trim()] *)
Definition trim (s : string) : string := trimEnd (trimStart s).

(** Lower-casing of one code unit: A-Z, and the capital letters of Latin-1
    (U+00C0 to U+00DE without the multiplication sign U+00D7), move up by 32;
    every other code unit below 256 is its own lower case. *)
Definition lower_unit (c : ascii) : ascii :=
  let n := N_of_ascii c in
  if ((65 <=? n) && (n <=? 90) || (192 <=? n) && (n <=? 222) && negb (n =? 215))%N
  then ascii_of_N (n + 32) else c.

(** [s.toLowerCase()] *)
Fixpoint toLowerCase (s : string) : string :=
  match s with
  | EmptyString => EmptyString
  | String c r => String (lower_unit c) (toLowerCase r)
  end.

(** [s.includes(q)] *)
Fixpoint includes (s q : string) : bool :=
  String.prefix q s ||
  match s with
  | EmptyString => false
  | String _ r => includes r q
  end.

(** [Boolean(s)] for a string: the empty string is the falsy one. *)
Definition nonempty (s : string) : bool :=
  match s with EmptyString => false | _ => true end.

(* ================================================================= *)
(** ** Values *)

(** Plain data as [JSON.parse] produces it and [JSON.stringify] keeps it.
    Numbers are the integer-valued ones.  An object is a finite map from
    property names to values; a property that is absent reads as
    [undefined], which is [None] of [option value]. *)
Inductive value : Type :=
| JNull
| JBool (b : bool)
| JNum (n : Z)
| JStr (s : string)
| JArr (items : list value)
| JObj (props : gmap string value).

(** An exception raised by the engine; the store raises none of its own, so
    every one is a [TypeError]. *)
Inductive outcome (A : Type) : Type :=
| Returns (a : A)
| Throws.
Arguments Returns {A} a.
Arguments Throws {A}.

Definition obind {A B} (o : outcome A) (k : A -> outcome B) : outcome B :=
  match o with
  | Returns a => k a
  | Throws => Throws
  end.

Declare Scope outcome_scope.
Delimit Scope outcome_scope with outcome.
Notation "'do' x <- o ; k" := (obind o (fun x => k))
  (at level 10, x name, o at level 100, k at level 200) : outcome_scope.

(** [v.k] on a value that is not [undefined]: reading a property of [null]
    throws.  None of the names this module reads ([notes], [id], [title],
    [content], [tags], [favorite], [createdAt], [updatedAt], [tag], [query],
    [favorites]) is an own or inherited property of a primitive or of an
    array, so there the read yields [undefined]. *)
Definition get (v : value) (k : string) : outcome (option value) :=
  match v with
  | JNull => Throws
  | JObj ps => Returns (ps !! k)
  | _ => Returns None
  end.

(** The same read where the source has already excluded [null]. *)
Definition prop (v : value) (k : string) : option value :=
  match v with
  | JObj ps => ps !! k
  | _ => None
  end.

(** ToBoolean *)
Definition truthy (v : option value) : bool :=
  match v with
  | None | Some JNull | Some (JBool false) | Some (JNum 0) | Some (JStr EmptyString) => false
  | Some _ => true
  end.

(** [v || d] *)
Definition or_else (v : option value) (d : value) : value :=
  match v with
  | Some x => if truthy v then x else d
  | None => d
  end.

Definition isArray (v : option value) : bool :=
  match v with Some (JArr _) => true | _ => false end.

(** [a === b].  Arrays and objects are compared by identity; every object
    the store holds comes fresh out of [JSON.parse], so it is identical to
    no value a caller passes in. *)
Definition strict_eq (a b : option value) : bool :=
  match a, b with
  | None, None => true
  | Some JNull, Some JNull => true
  | Some (JBool x), Some (JBool y) => Bool.eqb x y
  | Some (JNum x), Some (JNum y) => Z.eqb x y
  | Some (JStr x), Some (JStr y) => String.eqb x y
  | _, _ => false
  end.

Definition string_of_Z (n : Z) : string := NilZero.string_of_int (Z.to_int n).
Definition string_of_nat (n : nat) : string := NilZero.string_of_uint (Nat.to_uint n).

(** [String(v)]: an array joins the strings of its items with commas, a
    [null] item giving the empty string. *)
Fixpoint to_String (v : value) : string :=
  match v with
  | JNull => "null"
  | JBool true => "true"
  | JBool false => "false"
  | JNum n => string_of_Z n
  | JStr s => s
  | JArr items =>
      String.concat ","
        (map (fun x => match x with JNull => EmptyString | _ => to_String x end) items)
  | JObj _ => "[object Object]"
  end.

(** [String(v)] for an argument that may be [undefined]. *)
Definition String_of (v : option value) : string :=
  match v with
  | None => "undefined"
  | Some x => to_String x
  end.

(* ----------------------------------------------------------------- *)
(** *** Object literals with spread *)

(** A property written with a value that may be [undefined].  An object
    here holds no [undefined]; the key is dropped instead, and every later
    read of it yields [undefined] all the same. *)
Definition obj_put (ps : gmap string value) (k : string) (v : option value)
  : gmap string value :=
  match v with
  | Some x => <[k := x]> ps
  | None => delete k ps
  end.

Fixpoint indexed {A} (f : A -> value) (i : nat) (l : list A) : list (string * value) :=
  match l with
  | [] => []
  | x :: r => (string_of_nat i, f x) :: indexed f (S i) r
  end.

(** The own enumerable properties that [...v] copies: an object's
    properties, the items of an array and the code units of a string under
    their indices, nothing for the other primitives. *)
Definition own_props (v : value) : gmap string value :=
  match v with
  | JObj ps => ps
  | JArr items => list_to_map (indexed (fun x => x) 0 items)
  | JStr s =>
      list_to_map (indexed (fun c => JStr (String c EmptyString)) 0 (list_ascii_of_string s))
  | _ => ∅
  end.

(** [{ ...ps, ...v }]: the properties of [v] win. *)
Definition spread (ps : gmap string value) (v : value) : gmap string value :=
  own_props v ∪ ps.

(* ----------------------------------------------------------------- *)
(** *** Array methods with callbacks that may throw *)

Section ArrayMethods.
Local Open Scope outcome_scope.
Context {A : Type}.

(** [l.filter(p)] *)
Fixpoint filterM (p : A -> outcome bool) (l : list A) : outcome (list A) :=
  match l with
  | [] => Returns []
  | x :: r =>
      do b <- p x ;
      do r' <- filterM p r ;
      Returns (if b then x :: r' else r')
  end.

(** [l.some(p)]: stops at the first item that passes. *)
Fixpoint someM (p : A -> outcome bool) (l : list A) : outcome bool :=
  match l with
  | [] => Returns false
  | x :: r => do b <- p x ; if b then Returns true else someM p r
  end.

(** [l.find(p)] *)
Fixpoint findM (p : A -> outcome bool) (l : list A) : outcome (option A) :=
  match l with
  | [] => Returns None
  | x :: r => do b <- p x ; if b then Returns (Some x) else findM p r
  end.

(** [l.findIndex(p)], [None] for -1. *)
Fixpoint findIndexM (p : A -> outcome bool) (l : list A) : outcome (option nat) :=
  match l with
  | [] => Returns None
  | x :: r =>
      do b <- p x ;
      if b then Returns (Some O)
      else do i <- findIndexM p r ; Returns (option_map S i)
  end.

(** [l[i] = x] for an index inside the array. *)
Fixpoint set_nth (i : nat) (x : A) (l : list A) : list A :=
  match l, i with
  | [], _ => []
  | _ :: r, O => x :: r
  | y :: r, S j => y :: set_nth j x r
  end.

(** [l.sort(cmp)].  The sort of ECMAScript is stable, and a comparator
    result of [NaN] ([None]) counts as 0.  For a consistent comparator
    every stable sort returns the same array; this one inserts each item
    before the first item it does not come after. *)
Definition comes_after (v : option Z) : bool :=
  match v with
  | Some z => 0 <? z
  | None => false
  end.

Fixpoint insertM (cmp : A -> A -> outcome (option Z)) (x : A) (l : list A)
  : outcome (list A) :=
  match l with
  | [] => Returns [x]
  | y :: r =>
      do v <- cmp x y ;
      if comes_after v then do r' <- insertM cmp x r ; Returns (y :: r')
      else Returns (x :: y :: r)
  end.

Fixpoint sortM (cmp : A -> A -> outcome (option Z)) (l : list A) : outcome (list A) :=
  match l with
  | [] => Returns []
  | x :: r => do s <- sortM cmp r ; insertM cmp x s
  end.
End ArrayMethods.

(** [for (const x of l) body], threading what the body updates. *)
Fixpoint for_of {A S} (l : list A) (body : S -> A -> outcome S) (s : S) : outcome S :=
  match l with
  | [] => Returns s
  | x :: r => obind (body s x) (for_of r body)
  end.

(** [[...new Set(l)]]: the distinct strings of [l] in the order of their
    first occurrence. *)
Definition Set_add (seen : list string) (x : string) : list string :=
  if existsb (String.eqb x) seen then seen else seen ++ [x].

Definition Set_values (l : list string) : list string := fold_left Set_add l [].

(** [Map.prototype.get] and [set] on a map from strings to counts, kept in
    insertion order. *)
Fixpoint Map_get (m : list (string * Z)) (k : string) : option Z :=
  match m with
  | [] => None
  | (k', c) :: r => if String.eqb k k' then Some c else Map_get r k
  end.

Fixpoint Map_set (m : list (string * Z)) (k : string) (c : Z) : list (string * Z) :=
  match m with
  | [] => [(k, c)]
  | (k', c') :: r => if String.eqb k k' then (k, c) :: r else (k', c') :: Map_set r k c
  end.

(* ================================================================= *)
(** ** The host *)

(** What the browser provides.  The clock and the random source are
    indexed by how often they have been consulted. *)
Class Host : Type := {
  (** [new Date().toISOString()] at the k-th reading of the clock *)
  toISOString_at : nat -> string;
  (** [Date.now().toString(36)] at the k-th reading of the clock *)
  now36_at : nat -> string;
  (** [crypto.randomUUID], where the browser has it: its k-th result *)
  crypto_randomUUID : option (nat -> string);
  (** [Math.random().toString(36).slice(2)] at the k-th draw *)
  random36_at : nat -> string;
  (** [new Date(s).getTime()] for a string; [None] is [NaN] *)
  Date_parse : string -> option Z;
  (** [a.localeCompare(b)] in the locale of the browser *)
  localeCompare : string -> string -> Z
}.

(** What ECMAScript promises of every host. *)
Class HostLaws (host : Host) : Prop := {
  (** An ISO-8601 time stamp has 24 characters or more. *)
  toISOString_nonempty : forall k, toISOString_at k <> EmptyString;
  (** A UUID has 36 characters. *)
  randomUUID_nonempty :
    forall gen k, crypto_randomUUID = Some gen -> gen k <> EmptyString;
  (** [localeCompare] is a consistent comparator. *)
  localeCompare_antisym :
    forall a b, Z.sgn (localeCompare a b) = - Z.sgn (localeCompare b a);
  localeCompare_trans :
    forall a b c, localeCompare a b <= 0 -> localeCompare b c <= 0 ->
                  localeCompare a c <= 0
}.

(** The text under [STORAGE_KEY], by what [JSON.parse] makes of it. *)
Inductive blob : Type :=
| EmptyText                   (* the empty string, which is falsy *)
| Malformed                   (* JSON.parse throws a SyntaxError *)
| Wellformed (parsed : value) (* JSON.parse returns [parsed] *).

Definition STORAGE_KEY : string := "notes_app_v1".

(** The state the store runs in: the items of localStorage (where
    [getItem] returns [null] for a key without one), how often the clock and
    the random source have been consulted, and how often [setItem] has
    been called. *)
Record world : Type := mkWorld {
  localStorage : gmap string blob;
  reads : nat;
  draws : nat;
  writes : nat
}.

(** A computation that may read and change the world, or throw. *)
Definition M (A : Type) : Type := world -> outcome A * world.

Definition ret {A} (a : A) : M A := fun w => (Returns a, w).

Definition bind {A B} (m : M A) (k : A -> M B) : M B :=
  fun w =>
    match m w with
    | (Returns a, w') => k a w'
    | (Throws, w') => (Throws, w')
    end.

Definition lift {A} (o : outcome A) : M A := fun w => (o, w).

(** A computation that only looks at the world. *)
Definition gets {A} (f : world -> A) : M A := fun w => (Returns (f w), w).

(** [v || m], where the right operand is run only for a falsy [v]. *)
Definition or_elseM (v : option value) (m : M value) : M value :=
  match v with
  | Some x => if truthy v then ret x else m
  | None => m
  end.

Declare Scope store_scope.
Delimit Scope store_scope with store.
Notation "'do' x <- m ; k" := (bind m (fun x => k))
  (at level 10, x name, m at level 100, k at level 200) : store_scope.

(** A parameter with the default [= {}]: the default stands in for
    [undefined] only. *)
Definition or_empty_object (arg : option value) : value :=
  match arg with
  | Some v => v
  | None => JObj ∅
  end.

(** The empty envelope [{ notes: [] }]. *)
Definition empty_store : value := JObj {[ "notes" := JArr [] ]}.

(** [store.notes], an array in every store that [readStore] returns. *)
Definition notes_of (store : value) : list value :=
  match prop store "notes" with
  | Some (JArr l) => l
  | _ => []
  end.

(** [store.notes = l], and what [push] and an indexed write leave in
    [store.notes]. *)
Definition with_notes (store : value) (l : list value) : value :=
  JObj (<["notes" := JArr l]> (own_props store)).

(** The seven fields of a note, as the object literal of [normalizeNote]
    lists them. *)
Definition note_object (id : value) (title : string) (content : value)
    (tags : list string) (favorite : bool) (createdAt updatedAt : value) : value :=
  JObj (list_to_map
          [("id", id); ("title", JStr title); ("content", content);
           ("tags", JArr (map JStr tags)); ("favorite", JBool favorite);
           ("createdAt", createdAt); ("updatedAt", updatedAt)]).

(** [n.tags] as [normalizeNote] rewrites it. *)
Definition normalizeTags (tags : option value) : list string :=
  match tags with
  | Some (JArr ts) =>
      Set_values (List.filter nonempty (map (fun t => trim (to_String t)) ts))
  | _ => []
  end.

(** An entry [{ tag, count }] of [listTags]. *)
Record TagCount : Type := mkTagCount { tag : string; count : Z }.

(** What [for ... of] iterates: the items of an array, the characters of a
    string; anything else here is not iterable. *)
Definition iterate (v : value) : outcome (list value) :=
  match v with
  | JArr xs => Returns xs
  | JStr s => Returns (map (fun c => JStr (String c EmptyString)) (list_ascii_of_string s))
  | _ => Throws
  end.

(** [map.get(key) || 0] *)
Definition or_zero (c : option Z) : Z :=
  match c with
  | Some z => z
  | None => 0
  end.

(** A method of strings called on [v]: a [TypeError] unless [v] is one. *)
Definition as_string (v : value) : outcome string :=
  match v with
  | JStr s => Returns s
  | _ => Throws
  end.

Section Store.
Context {host : Host}.

(* --------------------------------------------------------------- *)
(** *** Persistence *)

(** The [try] block of [readStore]. *)
Definition readStore_try (w : world) : outcome value :=
  match localStorage w !! STORAGE_KEY with
  | None => Returns empty_store
  | Some EmptyText => Returns empty_store
  | Some Malformed => Throws
  | Some (Wellformed parsed) =>
      if negb (truthy (Some parsed)) || negb (isArray (prop parsed "notes"))
      then Returns empty_store
      else Returns parsed
  end.

(** [readStore()]: the [catch] turns every exception into the empty
    envelope. *)
Definition readStore (w : world) : value :=
  match readStore_try w with
  | Returns store => store
  | Throws => empty_store
  end.

(** [writeStore(store)] *)
Definition writeStore (store : value) : M unit :=
  fun w =>
    let safe :=
      JObj {[ "notes" := if isArray (prop store "notes")
                         then JArr (notes_of store) else JArr [] ]} in
    (Returns tt,
     mkWorld (<[STORAGE_KEY := Wellformed safe]> (localStorage w))
             (reads w) (draws w) (S (writes w))).

(* --------------------------------------------------------------- *)
(** *** Identifiers and time *)

(** [new Date().toISOString()] *)
Definition now_iso : M string :=
  fun w =>
    (Returns (toISOString_at (reads w)),
     mkWorld (localStorage w) (S (reads w)) (draws w) (writes w)).

(** The identifier [uid()] returns at draw [d] and clock reading [r]. *)
Definition uid_text (d r : nat) : string :=
  match crypto_randomUUID with
  | Some gen => gen d
  | None => "id-" ++ random36_at d ++ now36_at r
  end.

(** [uid()] *)
Definition uid : M string :=
  fun w =>
    (Returns (uid_text (draws w) (reads w)),
     match crypto_randomUUID with
     | Some _ => mkWorld (localStorage w) (reads w) (S (draws w)) (writes w)
     | None => mkWorld (localStorage w) (S (reads w)) (S (draws w)) (writes w)
     end).

(* --------------------------------------------------------------- *)
(** *** The normalizer *)

Local Open Scope store_scope.

(** [normalizeNote(n = {})] *)
Definition normalizeNote (arg : option value) : M value :=
  let n := or_empty_object arg in
  do now <- now_iso ;
  do n_id <- lift (get n "id") ;
  do id <- or_elseM n_id (do u <- uid ; ret (JStr u)) ;
  do title <- lift (as_string (or_else (prop n "title") (JStr EmptyString))) ;
  ret (note_object
         id
         (trim title)
         (or_else (prop n "content") (JStr EmptyString))
         (normalizeTags (prop n "tags"))
         (truthy (prop n "favorite"))
         (or_else (prop n "createdAt") (JStr now))
         (or_else (prop n "updatedAt") (JStr now))).

(** [new Date(d).getTime()]; [None] is [NaN].  A number is the time
    value itself when it is in range, [null] and the booleans convert to
    numbers, an array or an object is parsed as its string. *)
Definition getTime (d : option value) : option Z :=
  match d with
  | None => None
  | Some JNull => Some 0
  | Some (JBool b) => Some (if b then 1 else 0)
  | Some (JNum n) => if Z.abs n <=? 8640000000000000 then Some n else None
  | Some (JStr s) => Date_parse s
  | Some v => Date_parse (to_String v)
  end.

(** The comparator of [sortNotes]. *)
Definition compareNotes (a b : value) : outcome (option Z) :=
  (do b_at <- get b "updatedAt" ;
   do a_at <- get a "updatedAt" ;
   let diff :=
     match getTime b_at, getTime a_at with
     | Some tb, Some ta => Some (tb - ta)
     | _, _ => None
     end in
   match diff with
   | Some 0 =>
       do s <- as_string (or_else (prop a "title") (JStr EmptyString)) ;
       Returns (Some (localeCompare s
                        (to_String (or_else (prop b "title") (JStr EmptyString)))))
   | _ => Returns diff
   end)%outcome.

(** [sortNotes(notes)] *)
Definition sortNotes (notes : list value) : outcome (list value) :=
  sortM compareNotes notes.

(* --------------------------------------------------------------- *)
(** *** The public interface *)

(** [createNote(initial = {})] *)
Definition createNote (initial : option value) : M value :=
  let initial := or_empty_object initial in
  do note <- normalizeNote (Some initial) ;
  do store <- gets readStore ;
  let store := with_notes store (notes_of store ++ [note]) in
  do _ <- writeStore store ;
  ret note.

(** The callback [(n) => n.id === id]. *)
Definition has_id (id : option value) (n : value) : outcome bool :=
  (do n_id <- get n "id" ; Returns (strict_eq n_id id))%outcome.

(** The callback [(n) => n.id !== id]. *)
Definition has_other_id (id : option value) (n : value) : outcome bool :=
  (do n_id <- get n "id" ; Returns (negb (strict_eq n_id id)))%outcome.

(** [getNote(id)]; [None] is [undefined]. *)
Definition getNote (id : option value) (w : world) : outcome (option value) :=
  findM (has_id id) (notes_of (readStore w)).

(** [updateNote(id, fields = {})]; [None] is [undefined]. *)
Definition updateNote (id fields : option value) : M (option value) :=
  let fields := or_empty_object fields in
  do store <- gets readStore ;
  do idx <- lift (findIndexM (has_id id) (notes_of store)) ;
  match idx with
  | None => ret None
  | Some i =>
      let existing := nth i (notes_of store) JNull in
      do stamp <- now_iso ;
      do merged <- normalizeNote
                  (Some (JObj (<["updatedAt" := JStr stamp]>
                                 (obj_put (spread (spread ∅ existing) fields) "id" id)))) ;
      let store := with_notes store (set_nth i merged (notes_of store)) in
      do _ <- writeStore store ;
      ret (Some merged)
  end.

(** [deleteNote(id)] *)
Definition deleteNote (id : option value) : M bool :=
  do store <- gets readStore ;
  let before := List.length (notes_of store) in
  do kept <- lift (filterM (has_other_id id) (notes_of store)) ;
  let store := with_notes store kept in
  do _ <- writeStore store ;
  ret (List.length (notes_of store) <? before)%nat.

(** [toggleFavorite(id)] *)
Definition toggleFavorite (id : option value) : M (option value) :=
  do note <- (fun w => (getNote id w, w)) ;
  if negb (truthy note) then ret None
  else
    do favorite <- lift (get (or_else note JNull) "favorite") ;
    updateNote id (Some (JObj {[ "favorite" := JBool (negb (truthy favorite)) ]})).

(** The callback [(n) => n.favorite]. *)
Definition is_favorite (n : value) : outcome bool :=
  (do f <- get n "favorite" ; Returns (truthy f))%outcome.

(** The callback [(n) => n.tags.some((x) => x.toLowerCase() === t)]. *)
Definition has_tag (t : string) (n : value) : outcome bool :=
  (do tags <- get n "tags" ;
   match tags with
   | Some (JArr xs) =>
       someM (fun x => do s <- as_string x ; Returns (String.eqb (toLowerCase s) t)) xs
   | _ => Throws
   end)%outcome.

(** The callback of the query filter. *)
Definition mentions (q : string) (n : value) : outcome bool :=
  (do n_title <- get n "title" ;
   do title <- as_string (or_else n_title (JStr EmptyString)) ;
   do content <- as_string (or_else (prop n "content") (JStr EmptyString)) ;
   Returns (includes (toLowerCase title) q || includes (toLowerCase content) q))%outcome.

(** [listNotes(options = {})] *)
Definition listNotes (options : option value) (w : world) : outcome (list value) :=
  (let options := or_empty_object options in
   do tag <- get options "tag" ;
   let favorites := prop options "favorites" in
   let query := prop options "query" in
   let store := readStore w in
   let out := notes_of store in
   do out <- (if truthy favorites then filterM is_favorite out else Returns out) ;
   do out <- (if truthy tag
           then filterM (has_tag (toLowerCase (trim (String_of tag)))) out
           else Returns out) ;
   do out <- (if truthy query
           then
             do trimmed <- as_string (or_else query JNull) ;
             if nonempty (trim trimmed)
             then filterM (mentions (toLowerCase (trim trimmed))) out
             else Returns out
           else Returns out) ;
   sortNotes out)%outcome.

(** The body of the inner loop of [listTags]. *)
Definition count_tag (m : list (string * Z)) (t : value) : outcome (list (string * Z)) :=
  (do s <- as_string t ;
   let key := trim s in
   if negb (nonempty key) then Returns m
   else Returns (Map_set m key (or_zero (Map_get m key) + 1)))%outcome.

(** The body of the outer loop of [listTags]. *)
Definition count_tags (m : list (string * Z)) (n : value) : outcome (list (string * Z)) :=
  (do tags <- get n "tags" ;
   do ts <- iterate (or_else tags (JArr [])) ;
   for_of ts count_tag m)%outcome.

(** [listTags()] *)
Definition listTags (w : world) : outcome (list TagCount) :=
  (let store := readStore w in
   do m <- for_of (notes_of store) count_tags [] ;
   sortM (fun a b => Returns (Some (localeCompare (tag a) (tag b))))
         (map (fun kc => mkTagCount (fst kc) (snd kc)) m))%outcome.
End Store.

(* ================================================================= *)
(** ** The tag input of the editor (app.js) *)

(** [s.split(',')]: the parts between the commas of [s], at least one. *)
Fixpoint split_commas (s : string) : list string :=
  match s with
  | EmptyString => [EmptyString]
  | String c r =>
      if Ascii.eqb c "," then EmptyString :: split_commas r
      else match split_commas r with
           | part :: parts => String c part :: parts
           | [] => [String c EmptyString]
           end
  end.

(** What the closure of [tagInput] holds: its variable [tags] and the
    [value] of its input element.  [render()] rebuilds the chips from [tags],
    which changes neither of the two, and calls [onChange(tags)]; the calls
    of [onChange] are what a step of the control returns beside its state. *)
Record TagInput : Type := mkTagInput {
  ti_tags : list string;
  ti_value : string
}.

(** [[...new Set((next || []).map((t) => t.trim()).filter(Boolean))]] *)
Definition clean_tags (next : option (list string)) : list string :=
  Set_values (List.filter nonempty
                (map trim (match next with Some l => l | None => [] end))).

(** [tagInput(initial, onChange)]: the input element starts empty, and the
    first [render()] reports the tags. *)
Definition tagInput (initial : option (list string)) : TagInput * list (list string) :=
  let tags := clean_tags initial in
  (mkTagInput tags EmptyString, [tags]).

(** The callback of [forEach] in [addTagFromValue]. *)
Definition add_part (tags : list string) (part : string) : list string :=
  let t := trim part in
  if negb (nonempty t) then tags
  else if existsb (String.eqb t) tags then tags
  else (tags ++ [t])%list.

(** [addTagFromValue()] *)
Definition addTagFromValue (st : TagInput) : TagInput * list (list string) :=
  let raw := ti_value st in
  if negb (nonempty raw) then (st, [])
  else
    let tags := fold_left add_part (split_commas raw) (ti_tags st) in
    (mkTagInput tags EmptyString, [tags]).

(** [removeTag(label)] *)
Definition removeTag (label : string) (st : TagInput) : TagInput * list (list string) :=
  let tags := List.filter (fun t => negb (String.eqb t label)) (ti_tags st) in
  (mkTagInput tags (ti_value st), [tags]).

(** The listener of [keydown], by [e.key]. *)
Definition on_keydown (key : string) (st : TagInput) : TagInput * list (list string) :=
  if String.eqb key "Enter" || String.eqb key "," then addTagFromValue st
  else if String.eqb key "Backspace" && negb (nonempty (ti_value st))
          && negb (Nat.eqb (List.length (ti_tags st)) 0)
  then
    let tags := removelast (ti_tags st) in
    (mkTagInput tags (ti_value st), [tags])
  else (st, []).

(** [setTags(next)] *)
Definition setTags (next : option (list string)) (st : TagInput)
  : TagInput * list (list string) :=
  let tags := clean_tags next in
  (mkTagInput tags (ti_value st), [tags]).

(** [getTags()] *)
Definition getTags (st : TagInput) : list string := ti_tags st.

(** What happens to a tag input: a key goes down, the field loses the
    focus, the user edits the field (the browser then sets [input.value]),
    the remove button of a chip is clicked, or the owner calls [setTags]. *)
Inductive TagEvent : Type :=
| Keydown (key : string)
| Blur
| Edit (value : string)
| ClickRemove (label : string)
| SetTags (next : option (list string)).

Definition tag_step (e : TagEvent) (st : TagInput) : TagInput * list (list string) :=
  match e with
  | Keydown key => on_keydown key st
  | Blur => addTagFromValue st
  | Edit value => (mkTagInput (ti_tags st) value, [])
  | ClickRemove label => removeTag label st
  | SetTags next => setTags next st
  end.

(** The state after a sequence of events, and every call of [onChange] on
    the way, first to last. *)
Definition tag_run (initial : option (list string)) (events : list TagEvent)
  : TagInput * list (list string) :=
  fold_left (fun acc e =>
               let r := tag_step e (fst acc) in
               (fst r, (snd acc ++ snd r)%list))
            events (tagInput initial).

(* ================================================================= *)
(** ** The handlers of the application (app.js) *)

(** What the handlers of [initApp] do to the store and to the variable
    [state].  The elements they build and the attributes they set are left
    out, as none of it reaches the store; where building an element reads a
    note in a way that can throw, the read is kept. *)

(** [state.filter]: [{ type: 'all' | 'favorites' | 'tag', value }]. *)
Inductive Filter : Type :=
| FilterAll
| FilterFavorites
| FilterTag (value : string).

(** The variable [state] of [initApp], and the tag input of the editor. *)
Record AppState : Type := mkAppState {
  selectedId : option value;
  app_filter : Filter;
  query : string;
  sidebarOpen : bool;
  tagControl : TagInput
}.

(** [state.selectedId = id] *)
Definition select (id : option value) (st : AppState) : AppState :=
  mkAppState id (app_filter st) (query st) (sidebarOpen st) (tagControl st).

Definition with_control (control : TagInput) (st : AppState) : AppState :=
  mkAppState (selectedId st) (app_filter st) (query st) (sidebarOpen st) control.

(** The object [opts] of [refreshNotesList]. *)
Definition list_options (st : AppState) : value :=
  JObj (obj_put
          (obj_put
             (obj_put ∅ "query" (Some (JStr (query st))))
             "favorites"
             (Some (JBool match app_filter st with FilterFavorites => true | _ => false end)))
          "tag"
          match app_filter st with FilterTag v => Some (JStr v) | _ => None end).

(** What [noteListItem(n, n.id === state.selectedId, onClick)] reads of
    [n]: [n.id] and [n.updatedAt], which throw on [null], and
    [(n.content || '').slice(0, 80).replace(...)], which throws on a content
    that is truthy and no string. *)
Definition noteListItem (n : value) : outcome unit :=
  (do _ <- get n "id" ;
   do _ <- get n "updatedAt" ;
   do _ <- as_string (or_else (prop n "content") (JStr EmptyString)) ;
   Returns tt)%outcome.

(** [next.map((t) => t.trim())] reads every item as a string. *)
Fixpoint strings (xs : list value) : outcome (list string) :=
  match xs with
  | [] => Returns []
  | JStr s :: r => (do l <- strings r ; Returns (s :: l))%outcome
  | _ :: _ => Throws
  end.

(** The argument [note.tags || []] of [setTags], as [setTags] reads it: a
    falsy value gives the empty array, an array of strings itself; any other
    value has no [map], or an item with no [trim]. *)
Definition tags_argument (v : option value) : outcome (list string) :=
  if negb (truthy v) then Returns []
  else match v with
       | Some (JArr xs) => strings xs
       | _ => Throws
       end.

Section App.
Context {host : Host}.

Local Open Scope store_scope.

(** A call that reads the store and writes nothing. *)
Definition look {A} (f : world -> outcome A) : M A := fun w => (f w, w).

(** [refreshTagList()] *)
Definition refreshTagList (st : AppState) : M AppState :=
  do _ <- look listTags ;
  ret st.

(** [refreshNotesList(forceSelectId)], and [refreshNotesListOnlySelection()]
    which calls it: the argument is not used. *)
Definition refreshNotesList (st : AppState) : M AppState :=
  do notes <- look (listNotes (Some (list_options st))) ;
  do _ <- lift (for_of notes (fun _ n => noteListItem n) tt) ;
  if negb (truthy (selectedId st)) && negb (Nat.eqb (List.length notes) 0)
  then do first_id <- lift (get (nth 0 notes JNull) "id") ;
       ret (select first_id st)
  else ret st.

(** [onTagsChanged(tags)] *)
Definition onTagsChanged (tags : list string) (st : AppState) : M AppState :=
  if negb (truthy (selectedId st)) then ret st
  else
    do _ <- updateNote (selectedId st) (Some (JObj {[ "tags" := JArr (map JStr tags) ]})) ;
    do st <- refreshTagList st ;
    refreshNotesList st.

(** The calls of [onChange] a step of the tag input has made, in order. *)
Fixpoint notify (calls : list (list string)) (st : AppState) : M AppState :=
  match calls with
  | [] => ret st
  | tags :: rest => do st <- onTagsChanged tags st ; notify rest st
  end.

(** [renderEditor(note)] *)
Definition renderEditor (note : option value) (st : AppState) : M AppState :=
  do next <- lift (if negb (truthy note) then Returns []
                   else tags_argument (prop (or_else note JNull) "tags")) ;
  let shown := setTags (Some next) (tagControl st) in
  notify (snd shown) (with_control (fst shown) st).

(** The listener of [click] on the list item of the note [n]. *)
Definition noteItem_click (n : value) (st : AppState) : M AppState :=
  do n_id <- lift (get n "id") ;
  do st <- renderEditor (Some n) (select n_id st) ;
  refreshNotesList st.

(** The note of the first visit. *)
Definition welcome_note : value :=
  JObj (list_to_map
          [("title", JStr "Welcome");
           ("content", JStr "This is your notes app.

- Create notes with the New button
- Search using the search bar
- Organize with tags and favorites

Enjoy!");
           ("tags", JArr [JStr "welcome"]);
           ("favorite", JBool true)]).

(** [refresh()] *)
Definition refresh (st : AppState) : M AppState :=
  do all <- look (listNotes None) ;
  do st <- (if Nat.eqb (List.length all) 0
            then do welcome <- createNote (Some welcome_note) ;
                 ret (select (prop welcome "id") st)
            else ret st) ;
  do st <- refreshTagList st ;
  do st <- refreshNotesList st ;
  do note <- look (getNote (selectedId st)) ;
  renderEditor note st.

(** [state] as [initApp] declares it, with the tag input it makes by
    [tagInput([], onTagsChanged)]: the first call of [onTagsChanged] finds
    no note selected and returns. *)
Definition initial_state : AppState :=
  mkAppState (Some JNull) FilterAll EmptyString true (fst (tagInput (Some []))).

(** [initApp(mount)]: after the layout, the first [refresh()]. *)
Definition initApp : M AppState :=
  do st <- notify (snd (tagInput (Some []))) initial_state ;
  refresh st.
End App.

(* ================================================================= *)
(** ** What the claims are stated with *)

(** The notes a world holds, as the store reads them. *)
Definition stored (w : world) : list value := notes_of (readStore w).

(** A world whose item under [STORAGE_KEY] is the envelope of [notes]. *)
Definition holding (notes : list value) (w : world) : Prop :=
  localStorage w !! STORAGE_KEY = Some (Wellformed (JObj {[ "notes" := JArr notes ]})).

(** [load()] as the specification words it: the empty envelope when the
    blob is absent, cannot be parsed, parses to something that is no object,
    or parses to an object whose [notes] is no sequence; the parsed envelope
    otherwise. *)
Definition load (slot : option blob) : value :=
  match slot with
  | None => JObj {[ "notes" := JArr [] ]}
  | Some EmptyText | Some Malformed => JObj {[ "notes" := JArr [] ]}
  | Some (Wellformed (JObj ps)) =>
      match ps !! "notes" with
      | Some (JArr notes) => JObj ps
      | _ => JObj {[ "notes" := JArr [] ]}
      end
  | Some (Wellformed _) => JObj {[ "notes" := JArr [] ]}
  end.

(** The inputs [normalizeNote] returns on: anything but [null] whose
    [title] is a string or falsy.  On the others [n.id], or the call of
    [trim], throws. *)
Definition normalizable (arg : option value) : bool :=
  match or_empty_object arg with
  | JNull => false
  | n =>
      match or_else (prop n "title") (JStr EmptyString) with
      | JStr _ => true
      | _ => false
      end
  end.

(** Deduplication that keeps first occurrences, as the specification
    words it: an item stays, and its later copies go. *)
Fixpoint dedup_first_seen (l : list string) : list string :=
  match l with
  | [] => []
  | x :: r => x :: List.filter (fun y => negb (String.eqb x y)) (dedup_first_seen r)
  end.

(** The invariant on the tags of a note: no duplicate, no empty string,
    every tag trimmed. *)
Definition tags_ok (ts : list string) : Prop :=
  List.NoDup ts /\ ~ List.In EmptyString ts /\ Forall (fun t => trim t = t) ts.

(** A stored item whose [tags] is an array of strings under [tags_ok]. *)
Definition note_tags_ok (n : value) : Prop :=
  exists ts, prop n "tags" = Some (JArr (map JStr ts)) /\ tags_ok ts.

(** The strings among the items of [n.tags]. *)
Definition tags_of (n : value) : list string :=
  match prop n "tags" with
  | Some (JArr xs) => flat_map (fun x => match x with JStr s => [s] | _ => [] end) xs
  | _ => []
  end.

(** The note [n] has the tag [t]. *)
Definition carries (t : string) (n : value) : bool := existsb (String.eqb t) (tags_of n).

(** One pass of the inner loop of [listTags] on a tag that is trimmed and
    not empty. *)
Definition bump (m : list (string * Z)) (t : string) : list (string * Z) :=
  Map_set m t (or_zero (Map_get m t) + 1).

(** [n.id !== id], for a stored item that is not [null]. *)
Definition other_id (id : option value) (n : value) : bool :=
  negb (strict_eq (prop n "id") id).

(** The properties of [{ ...existing, ...fields }]. *)
Definition merged (existing fields : value) : gmap string value :=
  own_props fields ∪ own_props existing.

(** What [updateNote] hands to [normalizeNote]. *)
Definition update_input (existing fields : value) (id : option value) (stamp : string)
  : value :=
  JObj (<["updatedAt" := JStr stamp]>
          (obj_put (spread (spread ∅ existing) fields) "id" id)).

(** A note as the typedef [Note] of the source declares it. *)
Record Note : Type := mkNote {
  id : string;
  title : string;
  content : string;
  tags : list string;
  favorite : bool;
  createdAt : string;
  updatedAt : string
}.

Definition Note_value (n : Note) : value :=
  note_object (JStr (id n)) (title n) (JStr (content n)) (tags n) (favorite n)
              (JStr (createdAt n)) (JStr (updatedAt n)).

(** The options of [listNotes] as its doc comment types them. *)
Record Options : Type := mkOptions {
  opt_tag : option string;
  opt_favorites : option bool;
  opt_query : option string
}.

Definition Options_value (o : Options) : value :=
  JObj (obj_put (obj_put (obj_put ∅ "tag" (option_map JStr (opt_tag o)))
                         "favorites" (option_map JBool (opt_favorites o)))
                "query" (option_map JStr (opt_query o))).

(** The three filters of [listNotes], one after the other. *)
Definition by_favorites (o : Options) (n : Note) : bool :=
  match opt_favorites o with
  | Some true => favorite n
  | _ => true
  end.

Definition by_tag (o : Options) (n : Note) : bool :=
  match opt_tag o with
  | Some (String c r) =>
      existsb (fun x => String.eqb (toLowerCase x) (toLowerCase (trim (String c r)))) (tags n)
  | _ => true
  end.

Definition by_query (o : Options) (n : Note) : bool :=
  match opt_query o with
  | Some q =>
      includes (toLowerCase (title n)) (toLowerCase (trim q)) ||
      includes (toLowerCase (content n)) (toLowerCase (trim q))
  | None => true
  end.

(** The three restrictions, each in force only when its option is truthy. *)
Definition matches (o : Options) (n : Note) : bool :=
  match opt_favorites o with
  | Some true => favorite n
  | _ => true
  end
  &&
  match opt_tag o with
  | Some (String c r) =>
      existsb (fun x => String.eqb (toLowerCase x) (toLowerCase (trim (String c r)))) (tags n)
  | _ => true
  end
  &&
  match opt_query o with
  | Some q =>
      includes (toLowerCase (title n)) (toLowerCase (trim q)) ||
      includes (toLowerCase (content n)) (toLowerCase (trim q))
  | None => true
  end.

(** Two notes with the same [updatedAt] and the same title. *)
Definition same_keys (a b : Note) : bool :=
  String.eqb (updatedAt a) (updatedAt b) && String.eqb (title a) (title b).

(** The calls that change the store. *)
Inductive call : Type :=
| CreateNote (initial : option value)
| UpdateNote (id fields : option value)
| DeleteNote (id : option value)
| ToggleFavorite (id : option value).

Definition starts_black (s : string) : Prop :=
  match s with
  | EmptyString => True
  | String c _ => is_white_space c = false
  end.

Section Vocabulary.
Context {host : Host}.

(** The world a call leaves, whether it returns or throws. *)
Definition after (c : call) (w : world) : world :=
  match c with
  | CreateNote initial => snd (createNote initial w)
  | UpdateNote id fields => snd (updateNote id fields w)
  | DeleteNote id => snd (deleteNote id w)
  | ToggleFavorite id => snd (toggleFavorite id w)
  end.

Definition after_all (cs : list call) (w : world) : world :=
  fold_left (fun w c => after c w) cs w.

(** The world after the clock has been read once. *)
Definition ticked (w : world) : world :=
  mkWorld (localStorage w) (S (reads w)) (draws w) (writes w).

(** The identifier [uid()] mints when it is called after one reading of
    the clock, as in [normalizeNote]. *)
Definition minted (w : world) : string := uid_text (draws w) (S (reads w)).

(** What [normalizeNote] returns on [n] whose title, after [|| ''], is
    the string [s]. *)
Definition normalized (n : value) (s : string) (w : world) : value :=
  note_object
    (or_else (prop n "id") (JStr (minted w)))
    (trim s)
    (or_else (prop n "content") (JStr EmptyString))
    (normalizeTags (prop n "tags"))
    (truthy (prop n "favorite"))
    (or_else (prop n "createdAt") (JStr (toISOString_at (reads w))))
    (or_else (prop n "updatedAt") (JStr (toISOString_at (reads w)))).

(** The time of a note's [updatedAt], and the order of [sortNotes] on
    notes whose time is a number: later first, ties by title. *)
Definition time_of (n : Note) : option Z := Date_parse (updatedAt n).

Definition timed (n : Note) : Prop := time_of n <> None.

Definition in_order (a b : Note) : Prop :=
  match time_of a, time_of b with
  | Some ta, Some tb => tb < ta \/ (tb = ta /\ localeCompare (title a) (title b) <= 0)
  | _, _ => False
  end.

Definition tied (a b : Note) : bool :=
  match time_of a, time_of b with
  | Some ta, Some tb => (ta =? tb) && (localeCompare (title a) (title b) =? 0)
  | _, _ => false
  end.

(** What [compareNotes] returns on two notes whose times are numbers. *)
Definition Note_compare (a b : Note) : Z :=
  match time_of b, time_of a with
  | Some tb, Some ta => if tb - ta =? 0 then localeCompare (title a) (title b) else tb - ta
  | _, _ => 0
  end.
End Vocabulary.

(* ----------------------------------------------------------------- *)
(** *** For the further properties *)

(** [n.id === id], for a stored item that is not [null]. *)
Definition id_is (id : option value) (n : value) : bool := strict_eq (prop n "id") id.

(** The fields the editor passes to [updateNote]: a title, a content, a
    list of tags or a favorite flag, each optional. *)
Record Patch : Type := mkPatch {
  p_title : option string;
  p_content : option string;
  p_tags : option (list string);
  p_favorite : option bool
}.

Definition Patch_value (p : Patch) : value :=
  JObj (obj_put (obj_put (obj_put (obj_put ∅ "title" (option_map JStr (p_title p)))
                                  "content" (option_map JStr (p_content p)))
                         "tags" (option_map (fun ts => JArr (map JStr ts)) (p_tags p)))
                "favorite" (option_map JBool (p_favorite p))).

(** A note as [normalizeNote] leaves it: [id] and [createdAt] not empty,
    the title trimmed, the tags under [tags_ok]. *)
Definition well_formed (n : Note) : Prop :=
  id n <> EmptyString /\ createdAt n <> EmptyString /\
  trim (title n) = title n /\ tags_ok (tags n).

(** The note [n] with the fields of [p] written over it and [updatedAt]
    set to [stamp]: a title is trimmed, tags are trimmed, emptied of empty
    strings and deduplicated. *)
Definition patched (n : Note) (p : Patch) (stamp : string) : Note :=
  mkNote (id n)
         (match p_title p with Some t => trim t | None => title n end)
         (match p_content p with Some c => c | None => content n end)
         (match p_tags p with
          | Some ts => dedup_first_seen (List.filter nonempty (map trim ts))
          | None => tags n
          end)
         (match p_favorite p with Some b => b | None => favorite n end)
         (createdAt n)
         stamp.

(** The note [n] with the tags [ts] and [updatedAt] set to [stamp]. *)
Definition retagged (n : Note) (ts : list string) (stamp : string) : Note :=
  mkNote (id n) (title n) (content n) ts (favorite n) (createdAt n) stamp.

(** A stored item with no [tags], or with an array of strings for it. *)
Definition tags_are_strings (n : value) : Prop :=
  n <> JNull /\
  (prop n "tags" = None \/ exists ts, prop n "tags" = Some (JArr (map JStr ts))).

(** The tags of the stored notes as [listTags] counts them: trimmed, the
    empty ones left out. *)
Definition counted_tags (notes : list value) : list string :=
  flat_map (fun n => List.filter nonempty (map trim (tags_of n))) notes.

(* ----------------------------------------------------------------- *)
(** *** A host and a collection for the examples *)

(** Collation by code units. *)
Definition ordinal_compare (a b : string) : Z :=
  match String.compare a b with
  | Lt => -1
  | Eq => 0
  | Gt => 1
  end.

(** The decimal digits of [s] read as one numeral, [None] when [s] has no
    digit: on time stamps of one layout this orders them as their instants. *)
Fixpoint digits_value (acc : option Z) (s : string) : option Z :=
  match s with
  | EmptyString => acc
  | String c r =>
      let n := N_of_ascii c in
      if ((48 <=? n) && (n <=? 57))%N
      then digits_value (Some (10 * or_zero acc + (Z.of_N n - 48))) r
      else digits_value acc r
  end.

(** A browser with [crypto.randomUUID], a clock that advances by one
    millisecond per reading, and collation by code units. *)
Definition sample_host : Host :=
  {| toISOString_at := fun k => "2024-05-01T12:00:00." ++ string_of_nat (100 + k) ++ "Z";
     now36_at := fun k => string_of_nat k;
     crypto_randomUUID := Some (fun d => "3f2a9c1e-0000-4000-8000-" ++ string_of_nat d);
     random36_at := fun d => string_of_nat d;
     Date_parse := digits_value None;
     localeCompare := ordinal_compare |}.

(** A browser whose localStorage has no item under [STORAGE_KEY]. *)
Definition fresh_world : world := mkWorld ∅ 0 0 0.

Definition note_A : Note :=
  mkNote "A" "b" "alpha" ["x"] true "2024-04-30T08:00:00.000Z" "2024-04-30T08:00:00.000Z".

Definition note_B : Note :=
  mkNote "B" "a" "beta" ["x"] false "2024-04-30T08:00:00.000Z" "2024-04-30T08:00:00.000Z".

Definition note_C : Note :=
  mkNote "C" "z" "gamma" ["y"] true "2024-04-30T09:00:00.000Z" "2024-04-30T09:00:00.000Z".

(** A browser that holds A, B and C, in this order. *)
Definition sample_world : world :=
  mkWorld {[ STORAGE_KEY :=
               Wellformed (JObj {[ "notes" := JArr (map Note_value [note_A; note_B; note_C]) ]}) ]}
          0 0 0.


(* ================================================================= *)
(** ** The sample host keeps the laws *)

Lemma ordinal_compare_antisym (a b : string) :
  Z.sgn (ordinal_compare a b) = - Z.sgn (ordinal_compare b a).
Proof.
  unfold ordinal_compare.
  rewrite (String.compare_antisym b a).
  destruct (String.compare a b); reflexivity.
Qed.

Lemma compare_Lt_trans (a b c : string) :
  String.compare a b = Lt -> String.compare b c = Lt -> String.compare a c = Lt.
Proof.
  revert b c.
  induction a as [|x a IH]; intros [|y b] [|z c]; simpl; try congruence.
  destruct (Ascii.compare x y) eqn:Hxy; try discriminate.
  - apply Ascii.compare_eq_iff in Hxy; subst y.
    destruct (Ascii.compare x z); try congruence.
    apply IH.
  - intros _.
    destruct (Ascii.compare y z) eqn:Hyz; try discriminate.
    + apply Ascii.compare_eq_iff in Hyz; subst z.
      rewrite Hxy; reflexivity.
    + intros _.
      unfold Ascii.compare in *.
      rewrite N.compare_lt_iff in Hxy, Hyz.
      assert (H : (N_of_ascii x < N_of_ascii z)%N) by lia.
      rewrite <- N.compare_lt_iff in H.
      rewrite H; reflexivity.
Qed.

Lemma ordinal_compare_trans (a b c : string) :
  ordinal_compare a b <= 0 -> ordinal_compare b c <= 0 -> ordinal_compare a c <= 0.
Proof.
  unfold ordinal_compare.
  destruct (String.compare a b) eqn:Hab; try lia;
    destruct (String.compare b c) eqn:Hbc; try lia; intros _ _.
  - apply String.compare_eq_iff in Hab; subst b.
    rewrite Hbc; lia.
  - apply String.compare_eq_iff in Hab; subst b.
    rewrite Hbc; lia.
  - apply String.compare_eq_iff in Hbc; subst c.
    rewrite Hab; lia.
  - rewrite (compare_Lt_trans a b c Hab Hbc); lia.
Qed.


Lemma sample_stamp_nonempty (k : nat) :
  "2024-05-01T12:00:00." ++ string_of_nat (100 + k) ++ "Z" <> EmptyString.
Proof. simpl; discriminate. Qed.

Lemma sample_uuid_nonempty (gen : nat -> string) (k : nat) :
  Some (fun d => "3f2a9c1e-0000-4000-8000-" ++ string_of_nat d) = Some gen ->
  gen k <> EmptyString.
Proof. intros H; injection H as <-; simpl; discriminate. Qed.

Lemma sample_host_laws : HostLaws sample_host.
Proof.
  constructor.
  - exact sample_stamp_nonempty.
  - exact sample_uuid_nonempty.
  - exact ordinal_compare_antisym.
  - exact ordinal_compare_trans.
Qed.

(* ================================================================= *)
(** ** Strings *)

Lemma trimStart_starts_black (s : string) : starts_black (trimStart s).
Proof.
  induction s as [|c r IH]; simpl; [exact I|].
  destruct (is_white_space c) eqn:E; [exact IH | exact E].
Qed.

Lemma trimStart_fixed (s : string) : starts_black s -> trimStart s = s.
Proof.
  destruct s as [|c r]; simpl; [reflexivity|].
  intros ->; reflexivity.
Qed.

Lemma trimEnd_idempotent (s : string) : trimEnd (trimEnd s) = trimEnd s.
Proof.
  induction s as [|c r IH]; simpl; [reflexivity|].
  destruct (trimEnd r) as [|d t] eqn:E.
  - destruct (is_white_space c) eqn:W; simpl; [reflexivity|].
    rewrite W; reflexivity.
  - change (trimEnd (String c (String d t)))
      with (match trimEnd (String d t) with
            | EmptyString => if is_white_space c then EmptyString else String c EmptyString
            | r' => String c r'
            end).
    rewrite IH; reflexivity.
Qed.

Lemma trimEnd_starts_black (s : string) : starts_black s -> starts_black (trimEnd s).
Proof.
  destruct s as [|c r]; simpl; [trivial|].
  intros W; destruct (trimEnd r); [rewrite W|]; exact W.
Qed.

Lemma trim_idempotent (s : string) : trim (trim s) = trim s.
Proof.
  unfold trim.
  rewrite (trimStart_fixed (trimEnd (trimStart s))).
  - apply trimEnd_idempotent.
  - apply trimEnd_starts_black, trimStart_starts_black.
Qed.

Lemma includes_empty (s : string) : includes s EmptyString = true.
Proof. destruct s; reflexivity. Qed.

Lemma nonempty_true (s : string) : nonempty s = true <-> s <> EmptyString.
Proof. destruct s; simpl; split; congruence. Qed.

(* ================================================================= *)
(** ** Sets of strings *)

Lemma existsb_eqb_In (x : string) (l : list string) :
  existsb (String.eqb x) l = true <-> List.In x l.
Proof.
  rewrite existsb_exists; split.
  - intros (y & Hy & E). apply String.eqb_eq in E; subst; exact Hy.
  - intros H; exists x; split; [exact H | apply String.eqb_refl].
Qed.

Lemma filter_filter_absorb {A} (p q : A -> bool) (l : list A) :
  (forall x, p x = true -> q x = true) ->
  List.filter p (List.filter q l) = List.filter p l.
Proof.
  intros H; induction l as [|x l IH]; simpl; [reflexivity|].
  destruct (q x) eqn:Q; simpl.
  - rewrite IH; reflexivity.
  - destruct (p x) eqn:P; [apply H in P; congruence | exact IH].
Qed.

Lemma filter_filter_and {A} (p q : A -> bool) (l : list A) :
  List.filter p (List.filter q l) = List.filter (fun x => p x && q x) l.
Proof.
  induction l as [|x l IH]; simpl; [reflexivity|].
  destruct (q x); simpl; rewrite ?andb_true_r, ?andb_false_r.
  - destruct (p x); rewrite IH; reflexivity.
  - exact IH.
Qed.

Lemma fold_Set_add (l acc : list string) :
  fold_left Set_add l acc
  = (acc ++ List.filter (fun y => negb (existsb (String.eqb y) acc)) (dedup_first_seen l))%list.
Proof.
  revert acc; induction l as [|x l IH]; intros acc; simpl.
  - rewrite app_nil_r; reflexivity.
  - unfold Set_add at 2.
    destruct (existsb (String.eqb x) acc) eqn:E; simpl; rewrite IH.
    + f_equal. symmetry; apply filter_filter_absorb.
      intros y Hy.
      destruct (String.eqb x y) eqn:Exy; [|reflexivity].
      apply String.eqb_eq in Exy; subst y.
      rewrite E in Hy; discriminate.
    + rewrite <- app_assoc; simpl; do 2 f_equal.
      rewrite filter_filter_and.
      apply List.filter_ext; intros y.
      rewrite existsb_app; simpl.
      rewrite orb_false_r, negb_orb, String.eqb_sym.
      reflexivity.
Qed.

(** The set built by insertion lists first occurrences. *)
Lemma Set_values_first_seen (l : list string) : Set_values l = dedup_first_seen l.
Proof.
  unfold Set_values; rewrite fold_Set_add; simpl.
  induction (dedup_first_seen l) as [|y r IH]; simpl; [reflexivity|].
  rewrite IH; reflexivity.
Qed.

Lemma dedup_first_seen_In (x : string) (l : list string) :
  List.In x (dedup_first_seen l) <-> List.In x l.
Proof.
  induction l as [|y l IH]; simpl; [tauto|].
  rewrite List.filter_In, IH.
  destruct (String.eqb y x) eqn:E.
  - apply String.eqb_eq in E; subst; simpl; tauto.
  - apply String.eqb_neq in E; simpl; intuition congruence.
Qed.

Lemma dedup_first_seen_NoDup (l : list string) : List.NoDup (dedup_first_seen l).
Proof.
  induction l as [|y l IH]; simpl; constructor.
  - rewrite List.filter_In, String.eqb_refl; simpl; intros [_ H]; discriminate.
  - apply List.NoDup_filter, IH.
Qed.

Lemma dedup_first_seen_fixed (l : list string) :
  List.NoDup l -> dedup_first_seen l = l.
Proof.
  induction 1 as [|x l Hx _ IH]; simpl; [reflexivity|].
  rewrite IH; f_equal.
  apply List.forallb_filter_id, forallb_forall.
  intros y Hy; apply negb_true_iff, String.eqb_neq; congruence.
Qed.

Lemma filter_nonempty_fixed (l : list string) :
  ~ List.In EmptyString l -> List.filter nonempty l = l.
Proof.
  intros H; apply List.forallb_filter_id, forallb_forall.
  intros y Hy; apply nonempty_true; congruence.
Qed.

(* ================================================================= *)
(** ** The normalizer *)

Lemma normalizeTags_ok (v : option value) : tags_ok (normalizeTags v).
Proof.
  destruct v as [[| | | |ts|]|]; cbn [normalizeTags];
    try (repeat split; [constructor | intros [] | constructor]).
  rewrite Set_values_first_seen.
  repeat split.
  - apply dedup_first_seen_NoDup.
  - rewrite dedup_first_seen_In, List.filter_In. intros [_ H]; discriminate.
  - apply List.Forall_forall; intros t.
    rewrite dedup_first_seen_In, List.filter_In, List.in_map_iff.
    intros [(x & <- & _) _]. apply trim_idempotent.
Qed.

Lemma normalizeTags_first_seen (ts : list value) :
  normalizeTags (Some (JArr ts))
  = dedup_first_seen (List.filter nonempty (map (fun t => trim (to_String t)) ts)).
Proof. apply Set_values_first_seen. Qed.

Lemma normalizeTags_fixed (ts : list string) :
  tags_ok ts -> normalizeTags (Some (JArr (map JStr ts))) = ts.
Proof.
  intros (Hnd & Hne & Htr); cbn [normalizeTags].
  rewrite List.map_map; cbn [to_String].
  assert (E : map (fun t => trim t) ts = ts).
  { clear Hnd Hne. induction Htr as [|t ts Ht _ IH]; simpl; [reflexivity|].
    rewrite Ht, IH; reflexivity. }
  rewrite E, filter_nonempty_fixed, Set_values_first_seen by assumption.
  apply dedup_first_seen_fixed, Hnd.
Qed.

Section NoteFields.
Variables (i : value) (t : string) (c : value) (g : list string) (f : bool)
          (ca ua : value).

Lemma note_object_id : prop (note_object i t c g f ca ua) "id" = Some i.
Proof. reflexivity. Qed.
Lemma note_object_title : prop (note_object i t c g f ca ua) "title" = Some (JStr t).
Proof. reflexivity. Qed.
Lemma note_object_content : prop (note_object i t c g f ca ua) "content" = Some c.
Proof. reflexivity. Qed.
Lemma note_object_tags :
  prop (note_object i t c g f ca ua) "tags" = Some (JArr (map JStr g)).
Proof. reflexivity. Qed.
Lemma note_object_favorite :
  prop (note_object i t c g f ca ua) "favorite" = Some (JBool f).
Proof. reflexivity. Qed.
Lemma note_object_createdAt : prop (note_object i t c g f ca ua) "createdAt" = Some ca.
Proof. reflexivity. Qed.
Lemma note_object_updatedAt : prop (note_object i t c g f ca ua) "updatedAt" = Some ua.
Proof. reflexivity. Qed.
Lemma note_object_get (k : string) :
  get (note_object i t c g f ca ua) k = Returns (prop (note_object i t c g f ca ua) k).
Proof. reflexivity. Qed.
Lemma note_object_not_null : note_object i t c g f ca ua <> JNull.
Proof. discriminate. Qed.
End NoteFields.

Create Rewrite HintDb note_fields.
#[global] Hint Rewrite note_object_id note_object_title note_object_content
  note_object_tags note_object_favorite note_object_createdAt
  note_object_updatedAt : note_fields.

Lemma get_prop (n : value) (k : string) : n <> JNull -> get n k = Returns (prop n k).
Proof. destruct n; simpl; congruence. Qed.

Lemma or_else_Some_truthy (x d : value) : truthy (Some x) = true -> or_else (Some x) d = x.
Proof. unfold or_else; intros ->; reflexivity. Qed.

Lemma or_else_falsy (v : option value) (d : value) : truthy v = false -> or_else v d = d.
Proof. unfold or_else; destruct v; [intros ->|]; reflexivity. Qed.

(** [(v || d) || d] is [v || d]. *)
Lemma or_else_again (v : option value) (d : value) :
  or_else (Some (or_else v d)) d = or_else v d.
Proof.
  unfold or_else at 1.
  destruct (truthy (Some (or_else v d))) eqn:E; [reflexivity|].
  unfold or_else in *. destruct v as [x|]; [|reflexivity].
  destruct (truthy (Some x)) eqn:T; [congruence | reflexivity].
Qed.

Lemma or_else_truthy (v : option value) (d : value) :
  truthy (Some d) = true -> truthy (Some (or_else v d)) = true.
Proof.
  intros Hd; unfold or_else. destruct v as [x|]; [|exact Hd].
  destruct (truthy (Some x)) eqn:T; [exact T | exact Hd].
Qed.

Lemma truthy_JStr (s : string) : s <> EmptyString -> truthy (Some (JStr s)) = true.
Proof. destruct s; simpl; congruence. Qed.

Section Normalizer.
Context {host : Host} {laws : HostLaws host}.

Lemma uid_text_nonempty (d r : nat) : uid_text d r <> EmptyString.
Proof.
  unfold uid_text. destruct crypto_randomUUID as [gen|] eqn:E.
  - apply (randomUUID_nonempty gen d E).
  - simpl; discriminate.
Qed.

Lemma normalizeNote_value (n : value) (s : string) (w : world) :
  n <> JNull ->
  or_else (prop n "title") (JStr EmptyString) = JStr s ->
  fst (normalizeNote (Some n) w) = Returns (normalized n s w).
Proof.
  intros Hn Ht.
  unfold normalizeNote, bind, now_iso, lift, normalized, or_empty_object.
  rewrite (get_prop n "id" Hn), Ht.
  cbv beta iota. unfold or_elseM.
  destruct (prop n "id") as [x|] eqn:Ei.
  - destruct (truthy (Some x)) eqn:T.
    + rewrite (or_else_Some_truthy x _ T); reflexivity.
    + rewrite (or_else_falsy (Some x) _ T); reflexivity.
  - reflexivity.
Qed.

Lemma normalizeNote_throws (arg : option value) (w : world) :
  normalizable arg = false -> fst (normalizeNote arg w) = Throws.
Proof.
  intros Hn. unfold normalizeNote, bind, now_iso, lift.
  unfold normalizable in Hn.
  destruct (or_empty_object arg) as [| | | | |ps]; try discriminate Hn; [reflexivity|].
  cbn [get prop] in *. cbv beta iota.
  destruct (or_elseM _ _ _) as [[a|] w']; [|reflexivity].
  destruct (or_else (ps !! "title") (JStr EmptyString)); try discriminate Hn;
    reflexivity.
Qed.

Lemma or_elseM_frame (v : option value) (w : world) :
  let r := or_elseM v (bind uid (fun u => ret (JStr u))) w in
  localStorage (snd r) = localStorage w /\ writes (snd r) = writes w.
Proof.
  unfold or_elseM, bind, uid, ret.
  destruct v as [x|]; [destruct (truthy (Some x))|];
    cbv beta iota zeta; destruct crypto_randomUUID; cbn; tauto.
Qed.

Lemma normalizeNote_frame (arg : option value) (w : world) :
  localStorage (snd (normalizeNote arg w)) = localStorage w /\
  writes (snd (normalizeNote arg w)) = writes w.
Proof.
  unfold normalizeNote, bind, now_iso, lift.
  destruct (get _ "id") as [n_id|]; cbv beta iota; [|cbn; tauto].
  pose proof (or_elseM_frame n_id
                (mkWorld (localStorage w) (S (reads w)) (draws w) (writes w))) as H.
  cbv zeta in H.
  destruct (or_elseM _ _ _) as [[a|] w']; cbn [snd fst] in *; [|exact H].
  destruct (as_string _); cbn [snd]; exact H.
Qed.
End Normalizer.

(* ================================================================= *)
(** ** Persistence *)

Lemma readStore_is_load (w : world) : readStore w = load (localStorage w !! STORAGE_KEY).
Proof.
  unfold readStore, readStore_try, load.
  destruct (localStorage w !! STORAGE_KEY) as [[| |parsed]|]; try reflexivity.
  destruct parsed as [|[]|n|s|items|ps]; try reflexivity.
  - destruct n; reflexivity.
  - destruct s; reflexivity.
  - cbn [truthy negb orb prop isArray].
    destruct (ps !! "notes") as [[]|]; reflexivity.
Qed.

Lemma readStore_same_storage (w w' : world) :
  localStorage w' = localStorage w -> readStore w' = readStore w.
Proof. intros E; rewrite !readStore_is_load, E; reflexivity. Qed.

Lemma readStore_has_notes (w : world) : isArray (prop (readStore w) "notes") = true.
Proof.
  rewrite readStore_is_load; unfold load.
  destruct (localStorage w !! STORAGE_KEY) as [[| |parsed]|]; try reflexivity.
  destruct parsed as [| | | | |ps]; try reflexivity.
  destruct (ps !! "notes") as [[]|] eqn:E; try reflexivity.
  cbn [prop]; rewrite E; reflexivity.
Qed.

Lemma holding_stored (notes : list value) (w : world) : holding notes w -> stored w = notes.
Proof.
  unfold holding, stored; intros H.
  rewrite readStore_is_load, H; reflexivity.
Qed.

Lemma with_notes_notes (store : value) (l : list value) : notes_of (with_notes store l) = l.
Proof.
  unfold notes_of, with_notes; cbn [prop].
  rewrite lookup_insert_eq; reflexivity.
Qed.

(** What [writeStore] leaves of a store whose [notes] has been set. *)
Lemma writeStore_with_notes (store : value) (l : list value) (w : world) :
  writeStore (with_notes store l) w
  = (Returns tt,
     mkWorld (<[STORAGE_KEY := Wellformed (JObj {[ "notes" := JArr l ]})]> (localStorage w))
             (reads w) (draws w) (S (writes w))).
Proof.
  unfold writeStore. rewrite with_notes_notes.
  unfold with_notes; cbn [prop]. rewrite lookup_insert_eq; reflexivity.
Qed.

Lemma holding_insert (l : list value) (ls : gmap string blob) (r d k : nat) :
  holding l (mkWorld (<[STORAGE_KEY := Wellformed (JObj {[ "notes" := JArr l ]})]> ls) r d k).
Proof. unfold holding; cbn [localStorage]. apply lookup_insert_eq. Qed.

Lemma normalizable_inv (arg : option value) :
  normalizable arg = true ->
  or_empty_object arg <> JNull /\
  exists s, or_else (prop (or_empty_object arg) "title") (JStr EmptyString) = JStr s.
Proof.
  unfold normalizable.
  destruct (or_empty_object arg) as [|b|z|s0|items|ps]; try discriminate;
    intros H; (split; [discriminate|]);
    destruct (or_else _ _) as [| | |s| |]; try discriminate H; exists s; reflexivity.
Qed.

Lemma or_else_JStr (s : string) : or_else (Some (JStr s)) (JStr EmptyString) = JStr s.
Proof. destruct s; reflexivity. Qed.

Lemma truthy_JBool (b : bool) : truthy (Some (JBool b)) = b.
Proof. destruct b; reflexivity. Qed.

Section NormalizerTheory.
Context {host : Host} {laws : HostLaws host}.

Lemma normalized_again (n : value) (s : string) (w w2 : world) :
  normalized (normalized n s w) (trim s) w2 = normalized n s w.
Proof.
  unfold normalized at 1.
  unfold normalized at 1 2 3 4 5 6.
  autorewrite with note_fields.
  rewrite trim_idempotent, or_else_again, truthy_JBool.
  rewrite (normalizeTags_fixed _ (normalizeTags_ok _)).
  rewrite !or_else_Some_truthy;
    try (apply or_else_truthy, truthy_JStr;
         first [apply uid_text_nonempty | apply toISOString_nonempty]).
  reflexivity.
Qed.

Lemma normalizeNote_returns (arg : option value) (w : world) :
  normalizable arg = true ->
  exists s,
    or_else (prop (or_empty_object arg) "title") (JStr EmptyString) = JStr s /\
    fst (normalizeNote arg w) = Returns (normalized (or_empty_object arg) s w).
Proof.
  intros H. destruct (normalizable_inv arg H) as (Hn & s & Hs).
  exists s; split; [exact Hs|].
  rewrite <- (normalizeNote_value _ s w Hn Hs).
  destruct arg; reflexivity.
Qed.
End NormalizerTheory.

(* ================================================================= *)
(** ** Creating notes *)

Section Create.
Context {host : Host} {laws : HostLaws host}.

Lemma createNote_returns (initial : option value) (w : world) (note : value) :
  fst (normalizeNote (Some (or_empty_object initial)) w) = Returns note ->
  exists w',
    createNote initial w = (Returns note, w') /\
    holding (stored w ++ [note]) w' /\
    writes w' = S (writes w).
Proof.
  intros H. unfold createNote, bind, gets, ret.
  pose proof (normalizeNote_frame (Some (or_empty_object initial)) w) as [Fs Fw].
  destruct (normalizeNote (Some (or_empty_object initial)) w) as [o w1].
  cbn [fst snd] in *. subst o.
  rewrite writeStore_with_notes.
  eexists; split; [reflexivity|].
  rewrite (readStore_same_storage w w1 Fs).
  split; [apply holding_insert | cbn [writes]; congruence].
Qed.

Lemma createNote_throws (initial : option value) (w : world) :
  fst (normalizeNote (Some (or_empty_object initial)) w) = Throws ->
  fst (createNote initial w) = Throws /\
  localStorage (snd (createNote initial w)) = localStorage w.
Proof.
  intros H. unfold createNote, bind.
  pose proof (normalizeNote_frame (Some (or_empty_object initial)) w) as [Fs Fw].
  destruct (normalizeNote (Some (or_empty_object initial)) w) as [o w1].
  cbn [fst snd] in *. subst o. split; [reflexivity | exact Fs].
Qed.

End Create.



(* ================================================================= *)
(** ** Claims on the normalizer and on loading *)

(** C7: normalization is idempotent.  Whatever input and world produced
    the note, normalizing that note again, in any world, returns the
    identical note: [normalizeNote] itself forces no fresh [updatedAt]. *)
Theorem normalizeNote_idempotent {host : Host} {laws : HostLaws host}
    (arg : option value) (w w1 : world) (note : value) :
  normalizeNote arg w = (Returns note, w1) ->
  forall w2, fst (normalizeNote (Some note) w2) = Returns note.
Proof.
  intros H w2.
  destruct (normalizable arg) eqn:Hn.
  - destruct (normalizeNote_returns arg w Hn) as (s & _ & Hv).
    rewrite H in Hv; cbn [fst] in Hv. injection Hv as ->.
    rewrite (normalizeNote_value _ (trim s) w2).
    + rewrite normalized_again; reflexivity.
    + apply note_object_not_null.
    + unfold normalized; rewrite note_object_title. apply or_else_JStr.
  - pose proof (normalizeNote_throws arg w Hn) as Ht.
    rewrite H in Ht; discriminate Ht.
Qed.

(** C3: [readStore()] is [load] of the item under [STORAGE_KEY]; it is the
    empty envelope when the blob is absent, is empty or unparsable, parses
    to a value that is no object or to one whose [notes] is no array, and
    the parsed envelope otherwise.  No state makes it throw: the only
    exception of its [try] block, for an unparsable blob, is caught. *)
Theorem readStore_load (w : world) :
  readStore w = load (localStorage w !! STORAGE_KEY) /\
  (readStore_try w = Throws <-> localStorage w !! STORAGE_KEY = Some Malformed).
Proof.
  split; [apply readStore_is_load|].
  unfold readStore_try.
  destruct (localStorage w !! STORAGE_KEY) as [[| |parsed]|];
    try (split; [discriminate | discriminate]); try tauto.
  destruct (_ || _); split; discriminate.
Qed.

(* ================================================================= *)
(** ** Array methods on callbacks that return *)

Section ArrayFacts.
Context {A : Type}.
Variables (p : A -> outcome bool) (f : A -> bool).

Lemma filterM_pure (l : list A) :
  Forall (fun x => p x = Returns (f x)) l -> filterM p l = Returns (List.filter f l).
Proof.
  induction 1 as [|x l Hx _ IH]; cbn [filterM List.filter]; [reflexivity|].
  rewrite Hx, IH; reflexivity.
Qed.

Lemma filterM_returns (l kept : list A) :
  filterM p l = Returns kept -> Forall (fun x => exists b, p x = Returns b) l.
Proof.
  revert kept; induction l as [|x l IH]; intros kept; [constructor|].
  cbn [filterM]. destruct (p x) as [b|] eqn:Hx; [|discriminate].
  cbn [obind]. destruct (filterM p l) as [k|] eqn:Hl; [|discriminate].
  intros _. constructor; [exists b; exact Hx | exact (IH k eq_refl)].
Qed.

Lemma filterM_throws (l : list A) :
  filterM p l = Throws -> Exists (fun x => p x = Throws) l.
Proof.
  induction l as [|x l IH]; cbn [filterM]; [discriminate|].
  destruct (p x) as [b|] eqn:Hx; [|intros _; left; exact Hx].
  cbn [obind]. destruct (filterM p l) as [k|]; [discriminate|].
  intros _; right; apply IH; reflexivity.
Qed.

Lemma findM_none (l : list A) :
  Forall (fun x => p x = Returns false) l -> findM p l = Returns None.
Proof.
  induction 1 as [|x l Hx _ IH]; cbn [findM]; [reflexivity|].
  rewrite Hx; exact IH.
Qed.

Lemma findIndexM_found (l : list A) (i : nat) :
  findIndexM p l = Returns (Some i) ->
  exists x, nth_error l i = Some x /\ p x = Returns true.
Proof.
  revert i; induction l as [|x l IH]; intros i; cbn [findIndexM]; [discriminate|].
  destruct (p x) as [[|]|] eqn:Hx; cbn [obind]; try discriminate.
  - intros [= <-]. exists x; split; [reflexivity | exact Hx].
  - destruct (findIndexM p l) as [[j|]|]; cbn [obind option_map]; try discriminate.
    intros [= <-]. apply (IH j eq_refl).
Qed.
End ArrayFacts.

Lemma filter_length_lt {A} (f : A -> bool) (l : list A) :
  (List.length (List.filter f l) <? List.length l)%nat = existsb (fun x => negb (f x)) l.
Proof.
  induction l as [|x l IH]; [reflexivity|].
  pose proof (List.filter_length_le f l) as Hle.
  cbn [List.filter existsb List.length].
  destruct (f x); cbn [negb orb List.length].
  - rewrite <- IH. destruct (Nat.ltb_spec (List.length (List.filter f l)) (List.length l));
      [apply Nat.ltb_lt | apply Nat.ltb_ge]; lia.
  - apply Nat.ltb_lt; lia.
Qed.

Lemma existsb_pointwise {A} (f g : A -> bool) (l : list A) :
  (forall x, f x = g x) -> existsb f l = existsb g l.
Proof. intros H; induction l as [|x l IH]; cbn [existsb]; [reflexivity|]. rewrite H, IH; reflexivity. Qed.

Lemma set_nth_Forall {A} (P : A -> Prop) (i : nat) (x : A) (l : list A) :
  P x -> Forall P l -> Forall P (set_nth i x l).
Proof.
  intros Hx H; revert i; induction H as [|y l Hy Hl IH]; intros i.
  - destruct i; constructor.
  - destruct i; cbn [set_nth]; constructor; auto.
Qed.

(* ================================================================= *)
(** ** Deleting notes *)

Lemma has_other_id_pure (id : option value) (n : value) :
  n <> JNull -> has_other_id id n = Returns (other_id id n).
Proof. intros H; unfold has_other_id; rewrite (get_prop n "id" H); reflexivity. Qed.

Lemma has_id_pure (id : option value) (n : value) :
  n <> JNull -> has_id id n = Returns (strict_eq (prop n "id") id).
Proof. intros H; unfold has_id; rewrite (get_prop n "id" H); reflexivity. Qed.

Lemma has_other_id_returns (id : option value) (n : value) (b : bool) :
  has_other_id id n = Returns b -> n <> JNull.
Proof. intros H ->; discriminate H. Qed.

Lemma has_id_returns (id : option value) (n : value) (b : bool) :
  has_id id n = Returns b -> n <> JNull.
Proof. intros H ->; discriminate H. Qed.

Lemma deleteNote_returns (id : option value) (w : world) :
  Forall (fun n => n <> JNull) (stored w) ->
  exists w',
    deleteNote id w
    = (Returns (existsb (fun n => strict_eq (prop n "id") id) (stored w)), w') /\
    holding (List.filter (other_id id) (stored w)) w' /\
    writes w' = S (writes w).
Proof.
  intros H. unfold deleteNote, bind, gets, lift, ret.
  fold (stored w).
  rewrite (filterM_pure _ (other_id id)).
  - rewrite writeStore_with_notes, with_notes_notes, filter_length_lt.
    eexists; split; [|split; [apply holding_insert | reflexivity]].
    do 2 f_equal. apply existsb_pointwise; intros n. apply negb_involutive.
  - revert H; apply List.Forall_impl; intros n Hn. apply has_other_id_pure, Hn.
Qed.

Lemma deleteNote_inv (id : option value) (w w' : world) (b : bool) :
  deleteNote id w = (Returns b, w') -> Forall (fun n => n <> JNull) (stored w).
Proof.
  unfold deleteNote, bind, gets, lift. fold (stored w).
  destruct (filterM (has_other_id id) (stored w)) as [kept|] eqn:E; [|discriminate].
  intros _. apply filterM_returns in E.
  revert E; apply List.Forall_impl; intros n [c Hc]. exact (has_other_id_returns _ _ _ Hc).
Qed.

Lemma deleteNote_throws (id : option value) (w : world) :
  ~ Forall (fun n => n <> JNull) (stored w) ->
  deleteNote id w = (Throws, w).
Proof.
  intros H. unfold deleteNote, bind, gets, lift. fold (stored w).
  destruct (filterM (has_other_id id) (stored w)) as [kept|] eqn:E; [|reflexivity].
  exfalso; apply H. apply filterM_returns in E.
  revert E; apply List.Forall_impl; intros n [c Hc]. exact (has_other_id_returns _ _ _ Hc).
Qed.

(** C10: on a collection of notes (no stored item is [null]),
    [deleteNote(id)] returns, and what it persists is exactly the stored
    notes whose [id] is not [id], in their stored order: every note with
    that [id] is gone, not only the first, and the others are unchanged.
    [setItem] is called once whether or not a note matched. *)
Theorem deleteNote_persists_the_others (id : option value) (w : world) :
  Forall (fun n => n <> JNull) (stored w) ->
  exists b w',
    deleteNote id w = (Returns b, w') /\
    holding (List.filter (other_id id) (stored w)) w' /\
    stored w' = List.filter (other_id id) (stored w) /\
    (forall n, List.In n (stored w') <->
               List.In n (stored w) /\ strict_eq (prop n "id") id = false) /\
    writes w' = S (writes w).
Proof.
  intros H. destruct (deleteNote_returns id w H) as (w' & Hd & Hh & Hw).
  eexists; exists w'. split; [exact Hd|].
  pose proof (holding_stored _ _ Hh) as Hs.
  split; [exact Hh|]. split; [exact Hs|]. split; [|exact Hw].
  intros n. rewrite Hs, List.filter_In. unfold other_id. rewrite negb_true_iff. tauto.
Qed.

(** C9: [deleteNote(id)] returns whether a stored note had that [id].
    After it has returned, [getNote(id)] returns [undefined], and a second
    [deleteNote(id)] returns [false]; so in particular after it has
    returned [true]. *)
Theorem deleteNote_then_getNote (id : option value) (w w' : world) (b : bool) :
  deleteNote id w = (Returns b, w') ->
  (b = true <-> exists n, List.In n (stored w) /\ strict_eq (prop n "id") id = true) /\
  getNote id w' = Returns None /\
  exists w'', deleteNote id w' = (Returns false, w'').
Proof.
  intros Hd.
  pose proof (deleteNote_inv id w w' b Hd) as Hnn.
  destruct (deleteNote_returns id w Hnn) as (w1 & Hd1 & Hh & _).
  rewrite Hd in Hd1. injection Hd1 as -> <-.
  pose proof (holding_stored _ _ Hh) as Hs.
  assert (Hkept : Forall (fun n => n <> JNull /\ strict_eq (prop n "id") id = false)
                         (stored w')).
  { rewrite Hs. apply List.Forall_forall; intros n Hn.
    apply List.filter_In in Hn as [Hn Ho].
    split; [exact (proj1 (List.Forall_forall _ _) Hnn n Hn)|].
    unfold other_id in Ho. apply negb_true_iff, Ho. }
  repeat split.
  - intros E. apply existsb_exists in E. exact E.
  - intros E. apply existsb_exists. exact E.
  - unfold getNote. fold (stored w'). apply findM_none.
    revert Hkept; apply List.Forall_impl; intros n [Hn Hf].
    rewrite (has_id_pure id n Hn), Hf; reflexivity.
  - assert (Hnn' : Forall (fun n => n <> JNull) (stored w'))
      by (revert Hkept; apply List.Forall_impl; tauto).
    destruct (deleteNote_returns id w' Hnn') as (w2 & Hd2 & _).
    exists w2. rewrite Hd2. do 2 f_equal.
    apply not_true_is_false; intros E.
    apply existsb_exists in E as (n & Hn & Ht).
    pose proof (proj1 (List.Forall_forall _ _) Hkept n Hn) as [_ Hf].
    congruence.
Qed.

(* ================================================================= *)
(** ** Updating notes *)

Lemma update_input_lookup (existing fields : value) (id : option value)
    (stamp k : string) :
  k <> "id" -> k <> "updatedAt" ->
  prop (update_input existing fields id stamp) k = merged existing fields !! k.
Proof.
  intros Hi Hu. unfold update_input, merged, spread, obj_put; cbn [prop].
  rewrite lookup_insert_ne by congruence.
  assert (E : (own_props fields ∪ (own_props existing ∪ ∅)) !! k
              = (own_props fields ∪ own_props existing) !! k).
  { rewrite !lookup_union, lookup_empty.
    destruct (own_props fields !! k), (own_props existing !! k); reflexivity. }
  destruct id; [rewrite lookup_insert_ne by congruence | rewrite lookup_delete_ne by congruence];
    exact E.
Qed.

Lemma update_input_updatedAt (existing fields : value) (id : option value) (stamp : string) :
  prop (update_input existing fields id stamp) "updatedAt" = Some (JStr stamp).
Proof. unfold update_input; cbn [prop]. apply lookup_insert_eq. Qed.

Section Update.
Context {host : Host} {laws : HostLaws host}.

Lemma normalizeNote_tags_ok (arg : option value) (w : world) (note : value) :
  fst (normalizeNote arg w) = Returns note -> note_tags_ok note.
Proof.
  intros H. destruct (normalizable arg) eqn:Hn.
  - destruct (normalizeNote_returns arg w Hn) as (s & _ & Hv).
    rewrite H in Hv. injection Hv as ->.
    eexists; split; [apply note_object_tags | apply normalizeTags_ok].
  - rewrite (normalizeNote_throws arg w Hn) in H. discriminate H.
Qed.

Lemma updateNote_found (id fields : option value) (w : world) (i : nat) (note : value) :
  findIndexM (has_id id) (stored w) = Returns (Some i) ->
  fst (normalizeNote
         (Some (update_input (nth i (stored w) JNull) (or_empty_object fields) id
                             (toISOString_at (reads w))))
         (ticked w)) = Returns note ->
  exists w',
    updateNote id fields w = (Returns (Some note), w') /\
    holding (set_nth i note (stored w)) w' /\
    writes w' = S (writes w).
Proof.
  intros Hi Hv. unfold updateNote, bind, gets, lift, ret, now_iso.
  fold (stored w). rewrite Hi. cbv beta iota.
  fold (ticked w). fold (update_input (nth i (stored w) JNull) (or_empty_object fields) id
                           (toISOString_at (reads w))).
  pose proof (normalizeNote_frame
                (Some (update_input (nth i (stored w) JNull) (or_empty_object fields) id
                                    (toISOString_at (reads w)))) (ticked w)) as [Fs Fw].
  destruct (normalizeNote _ (ticked w)) as [o w1].
  cbn [fst snd] in *. subst o.
  rewrite writeStore_with_notes.
  eexists; split; [reflexivity|].
  rewrite Fs; cbn [ticked localStorage writes] in *.
  split; [apply holding_insert | congruence].
Qed.

(** Whatever [updateNote] does, the stored notes keep [note_tags_ok]. *)
Lemma updateNote_keeps_tags_ok (id fields : option value) (w : world) :
  Forall note_tags_ok (stored w) ->
  Forall note_tags_ok (stored (snd (updateNote id fields w))).
Proof.
  intros H. unfold updateNote, bind, gets, lift, ret, now_iso.
  fold (stored w).
  destruct (findIndexM (has_id id) (stored w)) as [[i|]|]; cbv beta iota;
    cbn [snd]; try exact H.
  fold (ticked w).
  match goal with |- context [normalizeNote ?a (ticked w)] =>
    pose proof (normalizeNote_frame a (ticked w)) as [Fs _];
    pose proof (normalizeNote_tags_ok a (ticked w)) as Ht;
    destruct (normalizeNote a (ticked w)) as [[note|] w1]
  end; cbn [fst snd] in *.
  - rewrite writeStore_with_notes. cbn [snd].
    rewrite (holding_stored _ _ (holding_insert _ _ _ _ _)).
    apply set_nth_Forall; [apply Ht; reflexivity | exact H].
  - unfold stored. rewrite (readStore_same_storage (ticked w) w1 Fs).
    exact H.
Qed.

End Update.

(* ================================================================= *)
(** ** The tag invariant of the stored collection *)

Lemma note_tags_ok_not_null (n : value) : note_tags_ok n -> n <> JNull.
Proof. intros (ts & H & _) ->. discriminate H. Qed.

Section TagInvariant.
Context {host : Host} {laws : HostLaws host}.

Lemma createNote_keeps_tags_ok (initial : option value) (w : world) :
  Forall note_tags_ok (stored w) ->
  Forall note_tags_ok (stored (snd (createNote initial w))).
Proof.
  intros H.
  destruct (fst (normalizeNote (Some (or_empty_object initial)) w)) as [note|] eqn:E.
  - destruct (createNote_returns initial w note E) as (w' & Hc & Hh & _).
    rewrite Hc; cbn [snd]. rewrite (holding_stored _ _ Hh).
    apply List.Forall_app; split; [exact H|].
    constructor; [|constructor].
    exact (normalizeNote_tags_ok _ _ _ E).
  - destruct (createNote_throws initial w E) as [_ Fs].
    unfold stored. rewrite (readStore_same_storage _ _ Fs). exact H.
Qed.

Lemma deleteNote_keeps_tags_ok (id : option value) (w : world) :
  Forall note_tags_ok (stored w) ->
  Forall note_tags_ok (stored (snd (deleteNote id w))).
Proof.
  intros H.
  assert (Hnn : Forall (fun n => n <> JNull) (stored w))
    by (revert H; apply List.Forall_impl, note_tags_ok_not_null).
  destruct (deleteNote_returns id w Hnn) as (w' & Hd & Hh & _).
  rewrite Hd; cbn [snd]. rewrite (holding_stored _ _ Hh).
  apply List.Forall_forall; intros n Hn.
  apply List.filter_In in Hn as [Hn _].
  exact (proj1 (List.Forall_forall _ _) H n Hn).
Qed.

Lemma toggleFavorite_keeps_tags_ok (id : option value) (w : world) :
  Forall note_tags_ok (stored w) ->
  Forall note_tags_ok (stored (snd (toggleFavorite id w))).
Proof.
  intros H. unfold toggleFavorite, bind, lift, ret.
  destruct (getNote id w) as [note|]; [|exact H].
  destruct (negb (truthy note)); [exact H|].
  destruct (get _ "favorite") as [fav|]; [|exact H].
  apply updateNote_keeps_tags_ok, H.
Qed.

Lemma after_keeps_tags_ok (c : call) (w : world) :
  Forall note_tags_ok (stored w) -> Forall note_tags_ok (stored (after c w)).
Proof.
  destruct c; cbn [after].
  - apply createNote_keeps_tags_ok.
  - apply updateNote_keeps_tags_ok.
  - apply deleteNote_keeps_tags_ok.
  - apply toggleFavorite_keeps_tags_ok.
Qed.

Lemma after_all_keeps_tags_ok (cs : list call) (w : world) :
  Forall note_tags_ok (stored w) -> Forall note_tags_ok (stored (after_all cs w)).
Proof.
  revert w; induction cs as [|c cs IH]; intros w H; [exact H|].
  cbn [after_all fold_left]. apply IH, after_keeps_tags_ok, H.
Qed.

End TagInvariant.

(* ================================================================= *)
(** ** Sorting with a consistent comparator *)

Lemma StronglySorted_insert_middle {A} (R : A -> A -> Prop) (x : A) (l1 l2 : list A) :
  StronglySorted R (l1 ++ l2) ->
  Forall (fun y => R y x) l1 ->
  Forall (fun z => R x z) l2 ->
  StronglySorted R (l1 ++ x :: l2).
Proof.
  induction l1 as [|y l1 IH]; cbn [app]; intros Hs H1 H2.
  - constructor; assumption.
  - inversion Hs as [|? ? Hs' Hy]; subst. inversion H1 as [|? ? Hyx H1']; subst.
    constructor; [apply IH; assumption|].
    apply List.Forall_app in Hy as [Hy1 Hy2].
    apply List.Forall_app; split; [exact Hy1|].
    constructor; assumption.
Qed.

Lemma StronglySorted_suffix {A} (R : A -> A -> Prop) (l1 l2 : list A) :
  StronglySorted R (l1 ++ l2) -> StronglySorted R l2.
Proof.
  induction l1 as [|y l1 IH]; cbn [app]; [trivial|].
  intros H; inversion H; subst; auto.
Qed.

Lemma filter_none {A} (f : A -> bool) (l : list A) :
  Forall (fun y => f y = false) l -> List.filter f l = [].
Proof.
  induction 1 as [|y l Hy _ IH]; cbn [List.filter]; [reflexivity|].
  rewrite Hy; exact IH.
Qed.

Lemma sgn_flip (a b : Z) :
  Z.sgn a = - Z.sgn b -> (0 < a <-> b < 0) /\ (a = 0 <-> b = 0) /\ (a < 0 <-> 0 < b).
Proof. destruct a, b; cbn; intros H; try discriminate H; lia. Qed.

Section SortFacts.
Context {A : Type}.
Variables (cmp : A -> A -> outcome (option Z)) (c : A -> A -> Z) (D : A -> Prop).
Hypothesis cmp_pure : forall a b, D a -> D b -> cmp a b = Returns (Some (c a b)).
Hypothesis c_antisym : forall a b, D a -> D b -> Z.sgn (c a b) = - Z.sgn (c b a).
Hypothesis c_trans :
  forall a b d, D a -> D b -> D d -> c a b <= 0 -> c b d <= 0 -> c a d <= 0.

Lemma insertM_splits (x : A) (l : list A) :
  D x -> Forall D l ->
  exists l1 l2,
    l = (l1 ++ l2)%list /\
    insertM cmp x l = Returns (l1 ++ x :: l2)%list /\
    Forall (fun y => 0 < c x y) l1 /\
    match l2 with
    | [] => True
    | z :: _ => c x z <= 0
    end.
Proof using cmp_pure.
  intros Hx H; induction H as [|y l Hy Hl IH].
  - exists [], []; repeat split; constructor.
  - cbn [insertM]. rewrite (cmp_pure x y Hx Hy). cbn [obind comes_after].
    destruct (Z.ltb_spec 0 (c x y)) as [Hlt|Hge].
    + destruct IH as (l1 & l2 & -> & Hi & H1 & H2).
      exists (y :: l1), l2. rewrite Hi. cbn [obind app].
      repeat split; [constructor; assumption | exact H2].
    + exists [], (y :: l). repeat split; [constructor | exact Hge].
Qed.

Lemma sortM_sorts (l : list A) :
  Forall D l ->
  exists out,
    sortM cmp l = Returns out /\
    Permutation out l /\
    StronglySorted (fun a b => c a b <= 0) out /\
    forall k, D k ->
      List.filter (fun y => c k y =? 0) out = List.filter (fun y => c k y =? 0) l.
Proof using cmp_pure c_antisym c_trans.
  induction 1 as [|x l Hx Hl IH].
  - exists []; repeat split; constructor.
  - destruct IH as (s & Hs & Hp & Hso & Hst).
    assert (Hds : Forall D s).
    { apply List.Forall_forall; intros y Hy.
      apply (proj1 (List.Forall_forall _ _) Hl), (Permutation_in _ Hp), Hy. }
    destruct (insertM_splits x s Hx Hds) as (l1 & l2 & -> & Hi & H1 & H2).
    apply List.Forall_app in Hds as [Hd1 Hd2].
    exists (l1 ++ x :: l2)%list. cbn [sortM]. rewrite Hs; cbn [obind].
    split; [exact Hi|]. split; [|split].
    + symmetry. etransitivity; [|apply Permutation_middle].
      constructor. symmetry; exact Hp.
    + apply StronglySorted_insert_middle; [exact Hso| |].
      * apply List.Forall_forall; intros y Hy.
        pose proof (proj1 (List.Forall_forall _ _) H1 y Hy) as Hlt.
        pose proof (sgn_flip _ _
                      (c_antisym x y Hx (proj1 (List.Forall_forall _ _) Hd1 y Hy))).
        cbv beta in *. lia.
      * destruct l2 as [|z l2]; [constructor|].
        inversion Hd2 as [|? ? Hz Hd2']; subst.
        apply StronglySorted_suffix in Hso.
        inversion Hso as [|? ? _ Hzs]; subst.
        constructor; [exact H2|].
        apply List.Forall_forall; intros u Hu.
        apply (c_trans x z u Hx Hz); [exact (proj1 (List.Forall_forall _ _) Hd2' u Hu)
                                     | exact H2
                                     | exact (proj1 (List.Forall_forall _ _) Hzs u Hu)].
    + intros k Hk. rewrite List.filter_app. cbn [List.filter].
      rewrite <- (Hst k Hk), List.filter_app.
      destruct (c k x =? 0) eqn:E; [|reflexivity].
      apply Z.eqb_eq in E.
      rewrite (filter_none _ l1); [reflexivity|].
      apply List.Forall_forall; intros y Hy. apply Z.eqb_neq; intros E'.
      pose proof (proj1 (List.Forall_forall _ _) H1 y Hy) as Hlt.
      pose proof (proj1 (List.Forall_forall _ _) Hd1 y Hy) as Hdy.
      pose proof (sgn_flip _ _ (c_antisym k x Hk Hx)) as Ha.
      cbv beta in *.
      assert (c x y <= 0); [|lia].
      apply (c_trans x k y Hx Hk Hdy); lia.
Qed.
End SortFacts.

Section SortTotal.
Context {A : Type}.
Variables (cmp : A -> A -> outcome (option Z)) (D : A -> Prop).
Hypothesis cmp_returns : forall a b, D a -> D b -> exists v, cmp a b = Returns v.

Lemma insertM_total (x : A) (l : list A) :
  D x -> Forall D l ->
  exists out, insertM cmp x l = Returns out /\ Permutation out (x :: l).
Proof using cmp_returns.
  intros Hx H; induction H as [|y l Hy Hl IH].
  - exists [x]; split; reflexivity.
  - cbn [insertM]. destruct (cmp_returns x y Hx Hy) as [v ->]. cbn [obind].
    destruct (comes_after v).
    + destruct IH as (r & -> & Hp). exists (y :: r); split; [reflexivity|].
      etransitivity; [apply perm_skip, Hp | apply perm_swap].
    + exists (x :: y :: l); split; reflexivity.
Qed.

Lemma sortM_total (l : list A) :
  Forall D l -> exists out, sortM cmp l = Returns out /\ Permutation out l.
Proof using cmp_returns.
  induction 1 as [|x l Hx Hl IH].
  - exists []; split; reflexivity.
  - destruct IH as (s & Hs & Hp). cbn [sortM]. rewrite Hs; cbn [obind].
    assert (Hds : Forall D s).
    { apply List.Forall_forall; intros y Hy.
      apply (proj1 (List.Forall_forall _ _) Hl), (Permutation_in _ Hp), Hy. }
    destruct (insertM_total x s Hx Hds) as (out & Hi & Hq).
    exists out; split; [exact Hi|].
    etransitivity; [exact Hq | apply perm_skip, Hp].
Qed.
End SortTotal.

Lemma insertM_map {A B} (g : A -> B) (cmp : B -> B -> outcome (option Z)) (x : A) (l : list A) :
  insertM cmp (g x) (map g l)
  = obind (insertM (fun a b => cmp (g a) (g b)) x l) (fun r => Returns (map g r)).
Proof.
  induction l as [|y l IH]; [reflexivity|].
  cbn [insertM map]. destruct (cmp (g x) (g y)) as [v|]; [|reflexivity].
  cbn [obind]. destruct (comes_after v); [|reflexivity].
  rewrite IH. destruct (insertM _ x l); reflexivity.
Qed.

Lemma sortM_map {A B} (g : A -> B) (cmp : B -> B -> outcome (option Z)) (l : list A) :
  sortM cmp (map g l)
  = obind (sortM (fun a b => cmp (g a) (g b)) l) (fun r => Returns (map g r)).
Proof.
  induction l as [|x l IH]; [reflexivity|].
  cbn [sortM map]. rewrite IH.
  destruct (sortM _ l) as [s|]; [|reflexivity].
  cbn [obind]. apply insertM_map.
Qed.

(* ================================================================= *)
(** ** Listing notes *)

Lemma filterM_map_pure {A B} (g : A -> B) (p : B -> outcome bool) (q : A -> bool)
    (l : list A) :
  (forall x, p (g x) = Returns (q x)) ->
  filterM p (map g l) = Returns (map g (List.filter q l)).
Proof.
  intros H; induction l as [|x l IH]; [reflexivity|].
  cbn [map filterM List.filter]. rewrite H, IH. cbn [obind].
  destruct (q x); reflexivity.
Qed.

Lemma someM_strings (t : string) (xs : list string) :
  someM (fun x => obind (as_string x) (fun s => Returns (String.eqb (toLowerCase s) t)))
        (map JStr xs)
  = Returns (existsb (fun x => String.eqb (toLowerCase x) t) xs).
Proof.
  induction xs as [|x xs IH]; [reflexivity|].
  cbn [map someM as_string obind existsb].
  destruct (String.eqb (toLowerCase x) t); [reflexivity | exact IH].
Qed.

Lemma Options_value_tag (o : Options) :
  prop (Options_value o) "tag" = option_map JStr (opt_tag o).
Proof. destruct o as [[t|] [f|] [q|]]; reflexivity. Qed.

Lemma Options_value_favorites (o : Options) :
  prop (Options_value o) "favorites" = option_map JBool (opt_favorites o).
Proof. destruct o as [[t|] [f|] [q|]]; reflexivity. Qed.

Lemma Options_value_query (o : Options) :
  prop (Options_value o) "query" = option_map JStr (opt_query o).
Proof. destruct o as [[t|] [f|] [q|]]; reflexivity. Qed.

Lemma toLowerCase_empty : toLowerCase EmptyString = EmptyString.
Proof. reflexivity. Qed.

Lemma filter_all {A} (f : A -> bool) (l : list A) :
  (forall x, f x = true) -> List.filter f l = l.
Proof.
  intros H; induction l as [|x l IH]; cbn [List.filter]; [reflexivity|].
  rewrite H, IH; reflexivity.
Qed.

Lemma matches_split (o : Options) (n : Note) :
  matches o n = by_query o n && by_tag o n && by_favorites o n.
Proof.
  unfold matches, by_query, by_tag, by_favorites.
  destruct (match opt_favorites o with Some true => favorite n | _ => true end),
           (match opt_tag o with Some (String _ _) => _ | _ => true end),
           (match opt_query o with Some _ => _ | None => true end); reflexivity.
Qed.

Section Listing.
Context {host : Host} {laws : HostLaws host}.

Lemma is_favorite_Note (n : Note) : is_favorite (Note_value n) = Returns (favorite n).
Proof. unfold is_favorite, Note_value. rewrite note_object_get, note_object_favorite.
       cbn [obind]. rewrite truthy_JBool; reflexivity. Qed.

Lemma has_tag_Note (t : string) (n : Note) :
  has_tag t (Note_value n)
  = Returns (existsb (fun x => String.eqb (toLowerCase x) t) (tags n)).
Proof. unfold has_tag, Note_value. rewrite note_object_get, note_object_tags.
       cbn [obind]. apply someM_strings. Qed.

Lemma mentions_Note (q : string) (n : Note) :
  mentions q (Note_value n)
  = Returns (includes (toLowerCase (title n)) q || includes (toLowerCase (content n)) q).
Proof. unfold mentions, Note_value.
       rewrite note_object_get, note_object_title, note_object_content.
       cbn [obind]. rewrite !or_else_JStr. reflexivity. Qed.

(** On a collection of notes, [listNotes] sorts the notes that match. *)
Lemma listNotes_filters (o : Options) (ns : list Note) (w : world) :
  holding (map Note_value ns) w ->
  listNotes (Some (Options_value o)) w
  = sortNotes (map Note_value (List.filter (matches o) ns)).
Proof.
  intros Hh. unfold listNotes. cbn [or_empty_object].
  assert (Hg : get (Options_value o) "tag" = Returns (prop (Options_value o) "tag"))
    by reflexivity.
  rewrite Hg, Options_value_tag, Options_value_favorites, Options_value_query.
  cbn [obind]. fold (stored w). rewrite (holding_stored _ _ Hh).
  (* favorites *)
  assert (E1 : (if truthy (option_map JBool (opt_favorites o))
                then filterM is_favorite (map Note_value ns)
                else Returns (map Note_value ns))
               = Returns (map Note_value (List.filter (by_favorites o) ns))).
  { unfold by_favorites. destruct (opt_favorites o) as [[|]|]; cbn [option_map truthy].
    - apply filterM_map_pure, is_favorite_Note.
    - rewrite filter_all by reflexivity; reflexivity.
    - rewrite filter_all by reflexivity; reflexivity. }
  rewrite E1; cbn [obind].
  set (l1 := List.filter (by_favorites o) ns).
  (* tag *)
  assert (E2 : (if truthy (option_map JStr (opt_tag o))
                then filterM (has_tag (toLowerCase (trim (String_of (option_map JStr (opt_tag o))))))
                             (map Note_value l1)
                else Returns (map Note_value l1))
               = Returns (map Note_value (List.filter (by_tag o) l1))).
  { unfold by_tag. destruct (opt_tag o) as [[|c r]|]; cbn [option_map truthy String_of to_String].
    - rewrite filter_all by reflexivity; reflexivity.
    - apply filterM_map_pure. intros n. apply has_tag_Note.
    - rewrite filter_all by reflexivity; reflexivity. }
  rewrite E2; cbn [obind].
  set (l2 := List.filter (by_tag o) l1).
  (* query *)
  assert (E3 : (if truthy (option_map JStr (opt_query o))
                then obind (as_string (or_else (option_map JStr (opt_query o)) JNull))
                       (fun trimmed =>
                          if nonempty (trim trimmed)
                          then filterM (mentions (toLowerCase (trim trimmed)))
                                       (map Note_value l2)
                          else Returns (map Note_value l2))
                else Returns (map Note_value l2))
               = Returns (map Note_value (List.filter (by_query o) l2))).
  { unfold by_query. destruct (opt_query o) as [[|c r]|]; cbn [option_map truthy].
    - rewrite filter_all; [reflexivity|]. intros n.
      change (trim EmptyString) with EmptyString. rewrite toLowerCase_empty, includes_empty.
      reflexivity.
    - cbn [or_else truthy as_string obind].
      destruct (trim (String c r)) as [|c' r'] eqn:Et; cbn [nonempty].
      + rewrite filter_all; [reflexivity|]. intros n.
        rewrite toLowerCase_empty, includes_empty. reflexivity.
      + apply filterM_map_pure. intros n. apply mentions_Note.
    - rewrite filter_all by reflexivity; reflexivity. }
  rewrite E3; cbn [obind].
  unfold l2, l1. rewrite !filter_filter_and.
  f_equal. f_equal. apply List.filter_ext. intros n. symmetry; apply matches_split.
Qed.
End Listing.

(* ================================================================= *)
(** ** The order of a listing *)

Section Order.
Context {host : Host} {laws : HostLaws host}.

Lemma compareNotes_Note (a b : Note) :
  exists v, compareNotes (Note_value a) (Note_value b) = Returns v /\
            (timed a -> timed b -> v = Some (Note_compare a b)).
Proof.
  unfold compareNotes, Note_value, timed, Note_compare.
  rewrite !note_object_get, !note_object_updatedAt, !note_object_title.
  cbn [obind getTime]. fold (time_of a) (time_of b).
  rewrite !or_else_JStr. cbn [as_string obind to_String].
  destruct (time_of b) as [tb|], (time_of a) as [ta|];
    try (eexists; split; [reflexivity | congruence]).
  destruct (tb - ta) eqn:E; eexists; (split; [reflexivity | intros _ _; reflexivity]).
Qed.

Lemma Note_compare_antisym (a b : Note) :
  timed a -> timed b -> Z.sgn (Note_compare a b) = - Z.sgn (Note_compare b a).
Proof.
  unfold timed, Note_compare. intros Ha Hb.
  destruct (time_of a) as [ta|], (time_of b) as [tb|]; try congruence.
  destruct (Z.eqb_spec (tb - ta) 0), (Z.eqb_spec (ta - tb) 0); try lia.
  apply localeCompare_antisym.
Qed.

Lemma Note_compare_trans (a b d : Note) :
  timed a -> timed b -> timed d ->
  Note_compare a b <= 0 -> Note_compare b d <= 0 -> Note_compare a d <= 0.
Proof.
  unfold timed, Note_compare. intros Ha Hb Hd.
  destruct (time_of a) as [ta|], (time_of b) as [tb|], (time_of d) as [td|];
    try congruence.
  destruct (Z.eqb_spec (tb - ta) 0), (Z.eqb_spec (td - tb) 0), (Z.eqb_spec (td - ta) 0);
    try lia.
  apply localeCompare_trans.
Qed.

Lemma Note_compare_in_order (a b : Note) :
  timed a -> timed b -> (Note_compare a b <= 0 <-> in_order a b).
Proof.
  unfold timed, Note_compare, in_order. intros Ha Hb.
  destruct (time_of a) as [ta|], (time_of b) as [tb|]; try congruence.
  destruct (Z.eqb_spec (tb - ta) 0); lia.
Qed.

Lemma Note_compare_tied (a b : Note) :
  timed a -> timed b -> (Note_compare a b =? 0) = tied a b.
Proof.
  unfold timed, Note_compare, tied. intros Ha Hb.
  destruct (time_of a) as [ta|], (time_of b) as [tb|]; try congruence.
  destruct (Z.eqb_spec (tb - ta) 0), (Z.eqb_spec ta tb); try lia; cbn [andb];
    first [reflexivity | apply Z.eqb_neq; assumption].
Qed.

(** [sortNotes] returns on every collection of notes, with the same
    notes. *)
Lemma sortNotes_total (ns : list Note) :
  exists out, sortNotes (map Note_value ns) = Returns (map Note_value out) /\
              Permutation out ns.
Proof.
  unfold sortNotes. rewrite sortM_map.
  destruct (sortM_total (fun a b => compareNotes (Note_value a) (Note_value b))
                        (fun _ => True)) with (l := ns) as (out & Hs & Hp).
  - intros a b _ _. destruct (compareNotes_Note a b) as (v & Hv & _). exists v; exact Hv.
  - apply List.Forall_forall; trivial.
  - exists out. rewrite Hs. split; [reflexivity | exact Hp].
Qed.

(** On notes whose [updatedAt] is a time, [sortNotes] puts the later
    first, ties by title, and keeps the stored order of notes that tie. *)
Lemma sortNotes_sorts (ns : list Note) :
  Forall timed ns ->
  exists out,
    sortNotes (map Note_value ns) = Returns (map Note_value out) /\
    Permutation out ns /\
    StronglySorted in_order out /\
    forall k, timed k -> List.filter (tied k) out = List.filter (tied k) ns.
Proof.
  intros Ht. unfold sortNotes. rewrite sortM_map.
  destruct (sortM_sorts (fun a b => compareNotes (Note_value a) (Note_value b))
                        Note_compare timed) with (l := ns)
    as (out & Hs & Hp & Hso & Hst).
  - intros a b Ha Hb. destruct (compareNotes_Note a b) as (v & Hv & E).
    rewrite Hv, (E Ha Hb); reflexivity.
  - apply Note_compare_antisym.
  - apply Note_compare_trans.
  - exact Ht.
  - assert (Hto : Forall timed out).
    { apply List.Forall_forall; intros y Hy.
      apply (proj1 (List.Forall_forall _ _) Ht), (Permutation_in _ Hp), Hy. }
    exists out. rewrite Hs. split; [reflexivity|]. split; [exact Hp|]. split.
    + clear Hs Hp Hst. induction Hso as [|x l Hl IH Hx]; constructor.
      * apply IH. inversion Hto; assumption.
      * inversion Hto as [|? ? Hdx Hdl]; subst.
        apply List.Forall_forall; intros y Hy.
        apply Note_compare_in_order;
          [exact Hdx | exact (proj1 (List.Forall_forall _ _) Hdl y Hy)
           | exact (proj1 (List.Forall_forall _ _) Hx y Hy)].
    + intros k Hk.
      rewrite (List.filter_ext_in (tied k) (fun y => Note_compare k y =? 0) out),
              (List.filter_ext_in (tied k) (fun y => Note_compare k y =? 0) ns).
      * apply Hst, Hk.
      * intros y Hy. symmetry. apply Note_compare_tied;
          [exact Hk | exact (proj1 (List.Forall_forall _ _) Ht y Hy)].
      * intros y Hy. symmetry. apply Note_compare_tied;
          [exact Hk | exact (proj1 (List.Forall_forall _ _) Hto y Hy)].
Qed.
End Order.

Section ListingClaims.
Context {host : Host} {laws : HostLaws host}.

Lemma localeCompare_refl (a : string) : localeCompare a a = 0.
Proof. pose proof (sgn_flip _ _ (localeCompare_antisym a a)). lia. Qed.

Lemma compareNotes_timed (a b : Note) :
  timed a -> timed b ->
  compareNotes (Note_value a) (Note_value b) = Returns (Some (Note_compare a b)).
Proof.
  intros Ha Hb. destruct (compareNotes_Note a b) as (v & Hv & E).
  rewrite Hv, (E Ha Hb); reflexivity.
Qed.

Lemma same_keys_tied (k y z : Note) :
  timed y -> same_keys k y = true -> same_keys k z = true -> tied y z = true.
Proof.
  unfold timed, same_keys, tied, time_of. intros Hy Hky Hkz.
  apply andb_true_iff in Hky as [U1 T1]. apply andb_true_iff in Hkz as [U2 T2].
  apply String.eqb_eq in U1, T1, U2, T2.
  rewrite <- U2, U1, <- T2, T1.
  destruct (Date_parse (updatedAt y)) as [t|]; [|congruence].
  rewrite Z.eqb_refl, localeCompare_refl; reflexivity.
Qed.

Lemma listNotes_no_options (w : world) :
  listNotes None w = listNotes (Some (Options_value (mkOptions None None None))) w.
Proof. reflexivity. Qed.

(** C4, as amended: on a collection of notes, [listNotes(options)]
    returns the sorted sequence of exactly the notes that pass every
    filter in force: with [favorites: true], the favorite notes; with a
    non-empty [tag], the notes one of whose tags equals the trimmed tag
    after lower-casing both; with a [query], the notes whose title or
    content, lower-cased, includes the trimmed and lower-cased query.  An
    empty [tag] restricts nothing.  With A (tag x, favorite), B (tag x, not
    favorite) and C (tag y, favorite) stored,
    [listNotes({tag: "x", favorites: true})] returns [[A]]. *)
Theorem listNotes_composes_filters (o : Options) (ns : list Note) (w : world) :
  holding (map Note_value ns) w ->
  (exists out,
      listNotes (Some (Options_value o)) w = Returns (map Note_value out) /\
      sortNotes (map Note_value (List.filter (matches o) ns))
      = Returns (map Note_value out) /\
      Permutation out (List.filter (matches o) ns)) /\
  (forall a b c w',
      tags a = ["x"] -> favorite a = true ->
      tags b = ["x"] -> favorite b = false ->
      tags c = ["y"] -> favorite c = true ->
      holding (map Note_value [a; b; c]) w' ->
      listNotes (Some (Options_value (mkOptions (Some "x") (Some true) None))) w'
      = Returns [Note_value a]).
Proof.
  intros Hh. split.
  - destruct (sortNotes_total (List.filter (matches o) ns)) as (out & Hs & Hp).
    exists out. rewrite (listNotes_filters o ns w Hh). auto.
  - intros a b c w' Ta Fa Tb Fb Tc Fc Hh'.
    rewrite (listNotes_filters _ _ _ Hh').
    unfold matches; cbn [List.filter opt_favorites opt_tag opt_query].
    rewrite Ta, Tb, Tc, Fa, Fb, Fc. reflexivity.
Qed.

(** C5: on a collection of notes whose [updatedAt] is a time the engine
    can parse, every sequence [listNotes] returns holds the matching notes
    sorted by time of [updatedAt], later first, ties broken by
    [localeCompare] on the titles, ascending; notes that tie on both keep
    their stored order, so in particular notes with the same [updatedAt]
    and the same title.  Stored as b(T1), a(T1), z(T2) with T1 before T2
    and "a" collated before "b", the notes are listed z, a, b. *)
Theorem listNotes_sorted_stable (o : Options) (ns : list Note) (w : world) :
  holding (map Note_value ns) w ->
  Forall timed ns ->
  (exists out,
      listNotes (Some (Options_value o)) w = Returns (map Note_value out) /\
      Permutation out (List.filter (matches o) ns) /\
      StronglySorted in_order out /\
      (forall k, timed k ->
         List.filter (tied k) out = List.filter (tied k) (List.filter (matches o) ns)) /\
      (forall k,
         List.filter (same_keys k) out
         = List.filter (same_keys k) (List.filter (matches o) ns))) /\
  (forall nb na nz t1 t2 w',
      title nb = "b" -> title na = "a" -> title nz = "z" ->
      time_of nb = Some t1 -> time_of na = Some t1 -> time_of nz = Some t2 ->
      t1 < t2 -> localeCompare "a" "b" < 0 ->
      holding (map Note_value [nb; na; nz]) w' ->
      listNotes None w' = Returns (map Note_value [nz; na; nb])).
Proof.
  intros Hh Ht. split.
  - set (l := List.filter (matches o) ns).
    assert (Hl : Forall timed l).
    { apply List.Forall_forall; intros y Hy. apply List.filter_In in Hy as [Hy _].
      exact (proj1 (List.Forall_forall _ _) Ht y Hy). }
    destruct (sortNotes_sorts l Hl) as (out & Hs & Hp & Hso & Hst).
    exists out. rewrite (listNotes_filters o ns w Hh). fold l.
    split; [exact Hs|]. split; [exact Hp|]. split; [exact Hso|]. split; [exact Hst|].
    intros k.
    destruct (existsb (same_keys k) l) eqn:E.
    + apply existsb_exists in E as (y & Hy & Hky).
      pose proof (proj1 (List.Forall_forall _ _) Hl y Hy) as Hty.
      rewrite <- (filter_filter_absorb (same_keys k) (tied y) out),
              <- (filter_filter_absorb (same_keys k) (tied y) l).
      * rewrite (Hst y Hty); reflexivity.
      * intros z Hz. exact (same_keys_tied k y z Hty Hky Hz).
      * intros z Hz. exact (same_keys_tied k y z Hty Hky Hz).
    + assert (Hn : forall l', (forall z, List.In z l' -> List.In z l) ->
                              List.filter (same_keys k) l' = []).
      { intros l' Hin. apply filter_none, List.Forall_forall. intros z Hz.
        destruct (same_keys k z) eqn:Ez; [|reflexivity].
        assert (existsb (same_keys k) l = true)
          by (apply existsb_exists; exists z; split; [apply Hin, Hz | exact Ez]).
        congruence. }
      rewrite (Hn out), (Hn l); [reflexivity | trivial |].
      intros z Hz. exact (Permutation_in _ Hp Hz).
  - intros nb na nz t1 t2 w' Tb Ta Tz Hb Ha Hz Hlt Hab Hh'.
    rewrite listNotes_no_options, (listNotes_filters _ _ _ Hh').
    cbn [List.filter matches opt_favorites opt_tag opt_query andb map].
    assert (Db : timed nb) by (unfold timed; congruence).
    assert (Da : timed na) by (unfold timed; congruence).
    assert (Dz : timed nz) by (unfold timed; congruence).
    unfold sortNotes. cbn [sortM insertM obind].
    rewrite (compareNotes_timed na nz Da Dz).
    assert (E1 : comes_after (Some (Note_compare na nz)) = true).
    { unfold Note_compare. rewrite Ha, Hz.
      destruct (Z.eqb_spec (t2 - t1) 0); [lia|]. apply Z.ltb_lt; lia. }
    cbn [obind]. rewrite E1. cbn [insertM obind].
    rewrite (compareNotes_timed nb nz Db Dz).
    assert (E2 : comes_after (Some (Note_compare nb nz)) = true).
    { unfold Note_compare. rewrite Hb, Hz.
      destruct (Z.eqb_spec (t2 - t1) 0); [lia|]. apply Z.ltb_lt; lia. }
    cbn [obind]. rewrite E2. cbn [insertM obind].
    rewrite (compareNotes_timed nb na Db Da).
    assert (E3 : comes_after (Some (Note_compare nb na)) = true).
    { unfold Note_compare. rewrite Hb, Ha, Z.sub_diag, Tb, Ta. cbn [Z.eqb comes_after].
      pose proof (sgn_flip _ _ (localeCompare_antisym "b" "a")).
      apply Z.ltb_lt; lia. }
    cbn [obind]. rewrite E3. reflexivity.
Qed.
End ListingClaims.

(* ================================================================= *)
(** ** Counting tags *)

Lemma strings_of_map_JStr (ts : list string) :
  flat_map (fun x => match x with JStr s => [s] | _ => [] end) (map JStr ts) = ts.
Proof. induction ts as [|t ts IH]; cbn; [reflexivity | rewrite IH; reflexivity]. Qed.

Lemma tags_of_ok (n : value) :
  note_tags_ok n ->
  prop n "tags" = Some (JArr (map JStr (tags_of n))) /\ tags_ok (tags_of n).
Proof.
  intros (ts & H & Hok). unfold tags_of. rewrite H, strings_of_map_JStr. auto.
Qed.

Lemma Map_get_set_same (m : list (string * Z)) (k : string) (c : Z) :
  Map_get (Map_set m k c) k = Some c.
Proof.
  induction m as [|[k' c'] m IH]; cbn [Map_set Map_get].
  - rewrite String.eqb_refl; reflexivity.
  - destruct (String.eqb k k') eqn:E; cbn [Map_get]; rewrite ?String.eqb_refl, ?E; auto.
Qed.

Lemma Map_get_set_other (m : list (string * Z)) (k k' : string) (c : Z) :
  k' <> k -> Map_get (Map_set m k c) k' = Map_get m k'.
Proof.
  intros Hne. induction m as [|[k0 c0] m IH]; cbn [Map_set Map_get].
  - apply String.eqb_neq in Hne. rewrite Hne; reflexivity.
  - destruct (String.eqb k k0) eqn:E; cbn [Map_get].
    + apply String.eqb_eq in E; subst k0.
      apply String.eqb_neq in Hne. rewrite Hne; reflexivity.
    + destruct (String.eqb k' k0); [reflexivity | exact IH].
Qed.

Lemma Map_set_keys (m : list (string * Z)) (k : string) (c : Z) :
  map fst (Map_set m k c) = Set_add (map fst m) k.
Proof.
  unfold Set_add. induction m as [|[k' c'] m IH]; cbn [Map_set map fst existsb]; [reflexivity|].
  destruct (String.eqb k k') eqn:E; cbn [map fst orb].
  - apply String.eqb_eq in E; subst; reflexivity.
  - rewrite IH. destruct (existsb (String.eqb k) (map fst m)); reflexivity.
Qed.

Lemma fold_bump_keys (l : list string) (m : list (string * Z)) :
  map fst (fold_left bump l m) = fold_left Set_add l (map fst m).
Proof.
  revert m; induction l as [|t l IH]; intros m; cbn [fold_left]; [reflexivity|].
  rewrite IH. unfold bump. rewrite Map_set_keys; reflexivity.
Qed.

Lemma fold_bump_get (l : list string) (m : list (string * Z)) (k : string) :
  or_zero (Map_get (fold_left bump l m) k)
  = or_zero (Map_get m k) + Z.of_nat (count_occ string_dec l k).
Proof.
  revert m; induction l as [|t l IH]; intros m; cbn [fold_left count_occ]; [lia|].
  rewrite IH. unfold bump.
  destruct (string_dec t k) as [->|Hne].
  - rewrite Map_get_set_same; cbn [or_zero]; lia.
  - rewrite Map_get_set_other by congruence. lia.
Qed.

Lemma Map_get_In (m : list (string * Z)) (k : string) (c : Z) :
  List.NoDup (map fst m) -> List.In (k, c) m -> Map_get m k = Some c.
Proof.
  induction m as [|[k' c'] m IH]; cbn [map fst Map_get]; intros Hnd Hin; [destruct Hin|].
  inversion Hnd as [|? ? Hk' Hnd']; subst.
  destruct Hin as [[= -> ->]|Hin].
  - rewrite String.eqb_refl; reflexivity.
  - destruct (String.eqb_spec k k') as [->|_]; [|exact (IH Hnd' Hin)].
    exfalso; apply Hk'. apply List.in_map_iff. exists (k', c); auto.
Qed.

Lemma count_occ_flat_map {A} (g : A -> list string) (l : list A) (k : string) :
  Forall (fun x => List.NoDup (g x)) l ->
  count_occ string_dec (flat_map g l) k
  = List.length (List.filter (fun x => existsb (String.eqb k) (g x)) l).
Proof.
  induction 1 as [|x l Hx _ IH]; cbn [flat_map List.filter]; [reflexivity|].
  rewrite List.count_occ_app, IH.
  destruct (existsb (String.eqb k) (g x)) eqn:E; cbn [List.length].
  - apply existsb_eqb_In in E.
    pose proof (proj1 (List.NoDup_count_occ string_dec (g x)) Hx k) as Hle.
    apply (List.count_occ_In string_dec) in E. lia.
  - assert (Hn : ~ List.In k (g x))
      by (intros Hin; apply existsb_eqb_In in Hin; congruence).
    apply (List.count_occ_not_In string_dec) in Hn. lia.
Qed.

Lemma for_of_count_tag (ts : list string) (m : list (string * Z)) :
  ~ List.In EmptyString ts -> Forall (fun t => trim t = t) ts ->
  for_of (map JStr ts) count_tag m = Returns (fold_left bump ts m).
Proof.
  intros Hne Htr; revert m.
  induction Htr as [|t ts Ht _ IH]; intros m; [reflexivity|].
  cbn [map for_of fold_left]. unfold count_tag at 1. cbn [as_string obind].
  rewrite Ht.
  destruct t as [|c r]; [exfalso; apply Hne; left; reflexivity|].
  cbn [nonempty negb obind]. apply IH. intros Hin; apply Hne; right; exact Hin.
Qed.

Lemma count_tags_ok (m : list (string * Z)) (n : value) :
  note_tags_ok n -> count_tags m n = Returns (fold_left bump (tags_of n) m).
Proof.
  intros Hn. destruct (tags_of_ok n Hn) as (Hp & _ & Hne & Htr).
  unfold count_tags. rewrite (get_prop n "tags" (note_tags_ok_not_null n Hn)), Hp.
  cbn [obind or_else truthy iterate]. apply for_of_count_tag; assumption.
Qed.

Lemma for_of_count_tags (notes : list value) (m : list (string * Z)) :
  Forall note_tags_ok notes ->
  for_of notes count_tags m = Returns (fold_left bump (flat_map tags_of notes) m).
Proof.
  intros H; revert m. induction H as [|n notes Hn _ IH]; intros m; [reflexivity|].
  cbn [for_of flat_map]. rewrite (count_tags_ok m n Hn). cbn [obind].
  rewrite IH, List.fold_left_app. reflexivity.
Qed.

Section TagsClaim.
Context {host : Host} {laws : HostLaws host}.

End TagsClaim.

(* ================================================================= *)
(** ** The claims at work on a sample collection *)

Lemma sample_world_holding : holding (map Note_value [note_A; note_B; note_C]) sample_world.
Proof. reflexivity. Qed.

Lemma Note_value_tags_ok (n : Note) : tags_ok (tags n) -> note_tags_ok (Note_value n).
Proof. intros H. exists (tags n). split; [apply note_object_tags | exact H]. Qed.

Lemma one_tag_ok (c : ascii) (r : string) :
  trim (String c r) = String c r -> tags_ok [String c r].
Proof.
  intros H. repeat split.
  - constructor; [intros [] | constructor].
  - intros [E|[]]; discriminate E.
  - constructor; [exact H | constructor].
Qed.

Lemma sample_world_tags_ok : Forall note_tags_ok (stored sample_world).
Proof.
  rewrite (holding_stored _ _ sample_world_holding).
  repeat constructor; apply Note_value_tags_ok, one_tag_ok; reflexivity.
Qed.

Lemma sample_world_timed : Forall (timed (host := sample_host)) [note_A; note_B; note_C].
Proof. repeat constructor; discriminate. Qed.



(** C4, the claim as stated fails: with [tag: ""] every stored note is
    listed, though none has a tag that equals the empty string. *)
Lemma listNotes_empty_tag_lists_all :
  listNotes (host := sample_host) (Some (Options_value (mkOptions (Some EmptyString) None None)))
            sample_world
  = Returns (map Note_value [note_C; note_B; note_A]) /\
  forallb (fun n => negb (existsb (fun x => String.eqb (toLowerCase x)
                                              (toLowerCase (trim EmptyString)))
                                  (tags n)))
          [note_A; note_B; note_C] = true.
Proof. split; vm_compute; reflexivity. Qed.

Lemma listNotes_composes_filters_witness :
  listNotes (host := sample_host)
            (Some (Options_value (mkOptions (Some "x") (Some true) None))) sample_world
  = Returns [Note_value note_A].
Proof.
  exact (proj2 (listNotes_composes_filters (host := sample_host)
                  (mkOptions (Some "x") (Some true) None)
                  [note_A; note_B; note_C] sample_world sample_world_holding)
               note_A note_B note_C sample_world
               eq_refl eq_refl eq_refl eq_refl eq_refl eq_refl sample_world_holding).
Defined.

Lemma listNotes_sorted_stable_witness :
  listNotes (host := sample_host) None sample_world
  = Returns (map Note_value [note_C; note_B; note_A]).
Proof.
  refine (proj2 (listNotes_sorted_stable (host := sample_host) (laws := sample_host_laws)
                   (mkOptions None None None)
                   [note_A; note_B; note_C] sample_world sample_world_holding
                   sample_world_timed)
                note_A note_B note_C 20240430080000000 20240430090000000 sample_world
                eq_refl eq_refl eq_refl eq_refl eq_refl eq_refl _ _ sample_world_holding);
    reflexivity.
Defined.


Lemma normalizeNote_idempotent_witness :
  fst (normalizeNote (host := sample_host)
         (Some (Note_value (mkNote "3f2a9c1e-0000-4000-8000-0" "Hi" EmptyString ["a"; "b"] false
                                   "2024-05-01T12:00:00.100Z" "2024-05-01T12:00:00.100Z")))
         sample_world)
  = Returns (Note_value (mkNote "3f2a9c1e-0000-4000-8000-0" "Hi" EmptyString ["a"; "b"] false
                                "2024-05-01T12:00:00.100Z" "2024-05-01T12:00:00.100Z")).
Proof.
  refine (normalizeNote_idempotent (host := sample_host) (laws := sample_host_laws)
            (Some (JObj (list_to_map
                           [("title", JStr " Hi ");
                            ("tags", JArr [JStr "a"; JStr "a"; JStr " b"])])))
            fresh_world (mkWorld ∅ 1 1 0) _ _ sample_world).
  vm_compute; reflexivity.
Defined.


Lemma deleteNote_then_getNote_witness :
  getNote (Some (JStr "A")) (snd (deleteNote (Some (JStr "A")) sample_world))
  = Returns None.
Proof.
  refine (proj1 (proj2 (deleteNote_then_getNote (Some (JStr "A")) sample_world
                          (snd (deleteNote (Some (JStr "A")) sample_world)) true _))).
  vm_compute; reflexivity.
Defined.

Lemma deleteNote_persists_the_others_witness :
  exists b w',
    deleteNote (Some (JStr "A")) sample_world = (Returns b, w') /\
    stored w' = map Note_value [note_B; note_C] /\
    writes w' = 1%nat.
Proof.
  destruct (deleteNote_persists_the_others (Some (JStr "A")) sample_world)
    as (b & w' & Hd & _ & Hs & _ & Hw).
  - rewrite (holding_stored _ _ sample_world_holding).
    repeat constructor; discriminate.
  - exists b, w'. split; [exact Hd|]. split; [|exact Hw].
    rewrite Hs, (holding_stored _ _ sample_world_holding). reflexivity.
Defined.

(* ================================================================= *)
(** ** Further properties of the store *)

(** X1: what [writeStore(store)] saves is what [readStore()] returns next:
    the envelope of [store.notes] when that is an array, the empty envelope
    when it is not, and no other property of [store].  No other item of
    localStorage changes, [setItem] is called once, and saving what was just
    loaded keeps the stored notes. *)
Theorem writeStore_then_readStore (store : value) (w : world) :
  readStore (snd (writeStore store w))
  = JObj {[ "notes" := JArr (if isArray (prop store "notes") then notes_of store else []) ]} /\
  (forall k, k <> STORAGE_KEY ->
             localStorage (snd (writeStore store w)) !! k = localStorage w !! k) /\
  writes (snd (writeStore store w)) = S (writes w) /\
  stored (snd (writeStore (readStore w) w)) = stored w.
Proof.
  assert (R : forall st, readStore (snd (writeStore st w))
                         = JObj {[ "notes" := JArr (if isArray (prop st "notes")
                                                    then notes_of st else []) ]}).
  { intros st. rewrite readStore_is_load. unfold writeStore; cbn [snd localStorage].
    rewrite lookup_insert_eq. unfold load.
    destruct (isArray (prop st "notes")); rewrite lookup_singleton_eq; reflexivity. }
  split; [apply R|]. split; [|split; [reflexivity|]].
  - intros k Hk. unfold writeStore; cbn [snd localStorage].
    apply lookup_insert_ne. congruence.
  - unfold stored at 1. rewrite R, readStore_has_notes.
    unfold notes_of at 1. cbn [prop]. rewrite lookup_singleton_eq. reflexivity.
Qed.

Section NormalizerShape.
Context {host : Host} {laws : HostLaws host}.

(** X2: every note [normalizeNote] returns has the seven fields of a
    note: a truthy [id], a trimmed string for [title], a [content] that is
    truthy or the empty string, [tags] without duplicate, empty string or
    untrimmed string, a boolean [favorite], and truthy [createdAt] and
    [updatedAt]; when the input supplies neither time, both are the one time
    read at the start of the call. *)
Theorem normalizeNote_shape (arg : option value) (w w' : world) (note : value) :
  normalizeNote arg w = (Returns note, w') ->
  exists i t c g f ca ua,
    note = note_object i t c g f ca ua /\
    truthy (Some i) = true /\
    trim t = t /\
    (c = JStr EmptyString \/ truthy (Some c) = true) /\
    tags_ok g /\
    f = truthy (prop (or_empty_object arg) "favorite") /\
    truthy (Some ca) = true /\
    truthy (Some ua) = true /\
    (truthy (prop (or_empty_object arg) "createdAt") = false ->
     truthy (prop (or_empty_object arg) "updatedAt") = false ->
     ca = JStr (toISOString_at (reads w)) /\ ua = ca).
Proof.
  intros H.
  destruct (normalizable arg) eqn:Hn.
  - destruct (normalizeNote_returns arg w Hn) as (s & _ & Hv).
    rewrite H in Hv; cbn [fst] in Hv. injection Hv as ->.
    unfold normalized. do 7 eexists. split; [reflexivity|].
    assert (Hnow : truthy (Some (JStr (toISOString_at (reads w)))) = true)
      by apply truthy_JStr, toISOString_nonempty.
    repeat split.
    + apply or_else_truthy, truthy_JStr, uid_text_nonempty.
    + apply trim_idempotent.
    + destruct (truthy (prop (or_empty_object arg) "content")) eqn:T.
      * right. destruct (prop (or_empty_object arg) "content") as [x|]; [|discriminate T].
        rewrite (or_else_Some_truthy x _ T). exact T.
      * left. apply or_else_falsy, T.
    + apply normalizeTags_ok.
    + apply normalizeTags_ok.
    + apply normalizeTags_ok.
    + apply or_else_truthy, Hnow.
    + apply or_else_truthy, Hnow.
    + apply or_else_falsy; assumption.
    + rewrite !or_else_falsy by assumption; reflexivity.
  - rewrite (surjective_pairing (normalizeNote arg w)) in H.
    rewrite (normalizeNote_throws arg w Hn) in H. discriminate H.
Qed.
End NormalizerShape.

Lemma normalizeNote_shape_witness :
  exists i t c g f ca ua,
    Note_value (mkNote "3f2a9c1e-0000-4000-8000-0" "Hi" EmptyString ["a"; "b"] false
                       "2024-05-01T12:00:00.100Z" "2024-05-01T12:00:00.100Z")
    = note_object i t c g f ca ua /\
    truthy (Some i) = true /\
    trim t = t /\
    (c = JStr EmptyString \/ truthy (Some c) = true) /\
    tags_ok g /\
    f = false /\
    truthy (Some ca) = true /\
    truthy (Some ua) = true /\
    (false = false -> false = false ->
     ca = JStr (toISOString_at (Host := sample_host) 0) /\ ua = ca).
Proof.
  refine (normalizeNote_shape (host := sample_host) (laws := sample_host_laws)
            (Some (JObj (list_to_map
                           [("title", JStr " Hi ");
                            ("tags", JArr [JStr "a"; JStr "a"; JStr " b"])])))
            fresh_world (mkWorld ∅ 1 1 0) _ _).
  vm_compute; reflexivity.
Defined.

Section CreateErrors.
Context {host : Host}.

(** X3: [normalizeNote] throws exactly on [null] and on an input whose
    [title] is truthy and not a string; on every other input it returns.
    When it throws inside [createNote], [createNote] throws as well, with
    localStorage as it was and no call of [setItem]. *)
Theorem createNote_throws_before_writing (initial : option value) (w : world) :
  (fst (normalizeNote initial w) = Throws <->
   or_empty_object initial = JNull \/
   exists t, prop (or_empty_object initial) "title" = Some t /\
             truthy (Some t) = true /\ forall s, t <> JStr s) /\
  (fst (normalizeNote initial w) = Throws ->
   fst (createNote initial w) = Throws /\
   localStorage (snd (createNote initial w)) = localStorage w /\
   writes (snd (createNote initial w)) = writes w).
Proof.
  assert (Hchar : normalizable initial = false <->
                  or_empty_object initial = JNull \/
                  exists t, prop (or_empty_object initial) "title" = Some t /\
                            truthy (Some t) = true /\ forall s, t <> JStr s).
  { unfold normalizable.
    destruct (or_empty_object initial) as [|b|z|s0|items|ps] eqn:E;
      try (split; [discriminate | intros [D|(t & D & _)]; discriminate D]).
    - split; [left; reflexivity | reflexivity].
    - cbn [prop]. unfold or_else.
      destruct (ps !! "title") as [t|];
        [|split; [discriminate | intros [D|(t & D & _)]; discriminate D]].
      destruct t as [|[]|[]|[]| |]; cbn [truthy];
        (split;
         [ intros H; try discriminate H; right; eexists;
           (split; [reflexivity | split; [reflexivity | discriminate]])
         | intros [D|(t & Ht & T & Hs)]; [discriminate D|];
           injection Ht as <-;
           first [ discriminate T | exfalso; exact (Hs _ eq_refl) | reflexivity ] ]). }
  assert (Hthrow : fst (normalizeNote initial w) = Throws <-> normalizable initial = false).
  { split.
    - intros Ht. destruct (normalizable initial) eqn:Hn; [|reflexivity].
      destruct (normalizeNote_returns initial w Hn) as (s & _ & Hv). congruence.
    - apply normalizeNote_throws. }
  split; [rewrite Hthrow; exact Hchar|].
  intros Ht.
  assert (Ht' : fst (normalizeNote (Some (or_empty_object initial)) w) = Throws).
  { apply normalizeNote_throws. apply Hthrow in Ht. destruct initial; exact Ht. }
  destruct (createNote_throws initial w Ht') as [Hc Hs].
  split; [exact Hc|]. split; [exact Hs|].
  unfold createNote, bind.
  pose proof (normalizeNote_frame (Some (or_empty_object initial)) w) as [_ Fw].
  destruct (normalizeNote (Some (or_empty_object initial)) w) as [o w1].
  cbn [fst snd] in *. subst o. exact Fw.
Qed.
End CreateErrors.

(* ----------------------------------------------------------------- *)
(** *** Looking notes up *)

Lemma findM_pure {A} (p : A -> outcome bool) (f : A -> bool) (l : list A) :
  Forall (fun x => p x = Returns (f x)) l -> findM p l = Returns (List.find f l).
Proof.
  induction 1 as [|x l Hx _ IH]; cbn [findM List.find]; [reflexivity|].
  rewrite Hx; cbn [obind]. destruct (f x); [reflexivity | exact IH].
Qed.

Lemma findIndexM_none {A} (p : A -> outcome bool) (l : list A) :
  Forall (fun x => p x = Returns false) l -> findIndexM p l = Returns None.
Proof.
  induction 1 as [|x l Hx _ IH]; cbn [findIndexM]; [reflexivity|].
  rewrite Hx; cbn [obind]. rewrite IH; reflexivity.
Qed.

Lemma findIndexM_first {A} (p : A -> outcome bool) (l1 l2 : list A) (x : A) :
  Forall (fun y => p y = Returns false) l1 -> p x = Returns true ->
  findIndexM p (l1 ++ x :: l2) = Returns (Some (List.length l1)).
Proof.
  intros H Hx; induction H as [|y l1 Hy _ IH]; cbn [app findIndexM List.length].
  - rewrite Hx; reflexivity.
  - rewrite Hy; cbn [obind]. rewrite IH; reflexivity.
Qed.

Lemma find_snoc {A} (f : A -> bool) (l : list A) (x : A) :
  List.find f (l ++ [x])
  = match List.find f l with
    | Some y => Some y
    | None => if f x then Some x else None
    end.
Proof.
  induction l as [|y l IH]; cbn [app List.find]; [reflexivity|].
  destruct (f y); [reflexivity | exact IH].
Qed.

Lemma find_all_false {A} (f : A -> bool) (l : list A) :
  (forall x, List.In x l -> f x = false) -> List.find f l = None.
Proof.
  induction l as [|y l IH]; cbn [List.find]; intros H; [reflexivity|].
  rewrite (H y (or_introl eq_refl)). apply IH. intros x Hx; apply H; right; exact Hx.
Qed.

Lemma filter_all_in {A} (f : A -> bool) (l : list A) :
  (forall x, List.In x l -> f x = true) -> List.filter f l = l.
Proof.
  induction l as [|x l IH]; cbn [List.filter]; intros H; [reflexivity|].
  rewrite (H x (or_introl eq_refl)), IH; [reflexivity|].
  intros y Hy; apply H; right; exact Hy.
Qed.

Lemma getNote_pure (id : option value) (w : world) :
  Forall (fun n => n <> JNull) (stored w) ->
  getNote id w = Returns (List.find (id_is id) (stored w)).
Proof.
  intros H. unfold getNote. fold (stored w). apply findM_pure.
  revert H; apply List.Forall_impl. intros n Hn. apply has_id_pure, Hn.
Qed.

Lemma null_or_not (l : list value) :
  List.In JNull l \/ Forall (fun n => n <> JNull) l.
Proof.
  induction l as [|x l [IH|IH]]; [right; constructor | left; right; exact IH |].
  destruct x; try (right; constructor; [discriminate | exact IH]).
  left; left; reflexivity.
Qed.

Section Lookups.
Context {host : Host}.

Lemma createNote_inv (initial : option value) (w w' : world) (note : value) :
  createNote initial w = (Returns note, w') ->
  fst (normalizeNote (Some (or_empty_object initial)) w) = Returns note /\
  holding (stored w ++ [note]) w' /\
  writes w' = S (writes w).
Proof.
  intros H.
  destruct (fst (normalizeNote (Some (or_empty_object initial)) w)) as [n'|] eqn:E.
  - destruct (createNote_returns initial w n' E) as (w1 & Hc & Hh & Hw).
    rewrite H in Hc. injection Hc as -> ->. auto.
  - destruct (createNote_throws initial w E) as [Hc _].
    rewrite H in Hc. discriminate Hc.
Qed.

(** X4: after [createNote] has returned a note, [getNote(id)] returns
    what it returned before for every [id] that a stored note already had,
    and the new note for its own [id] when no stored note had it; so a note
    created under an [id] that is in use is stored, and shadowed by the
    older one. *)
Theorem createNote_then_getNote
    (initial id : option value) (w w' : world) (note : value) :
  Forall (fun n => n <> JNull) (stored w) ->
  createNote initial w = (Returns note, w') ->
  getNote id w'
  = Returns (match List.find (id_is id) (stored w) with
             | Some older => Some older
             | None => if id_is id note then Some note else None
             end) /\
  (forall s, prop note "id" = Some (JStr s) ->
             (forall n, List.In n (stored w) -> id_is (Some (JStr s)) n = false) ->
             getNote (Some (JStr s)) w' = Returns (Some note)).
Proof.
  intros Hnn Hc.
  destruct (createNote_inv initial w w' note Hc) as (Hv & Hh & _).
  pose proof (holding_stored _ _ Hh) as Hs.
  assert (Hnote : note <> JNull)
    by exact (note_tags_ok_not_null _ (normalizeNote_tags_ok _ _ _ Hv)).
  assert (Hnn' : Forall (fun n => n <> JNull) (stored w')).
  { rewrite Hs. apply List.Forall_app; split; [exact Hnn|].
    constructor; [exact Hnote | constructor]. }
  assert (Hg : forall i, getNote i w'
                         = Returns (match List.find (id_is i) (stored w) with
                                    | Some older => Some older
                                    | None => if id_is i note then Some note else None
                                    end)).
  { intros i. rewrite (getNote_pure i w' Hnn'), Hs, find_snoc. reflexivity. }
  split; [apply Hg|].
  intros s Hi Hfree. rewrite Hg, (find_all_false _ _ Hfree).
  unfold id_is. rewrite Hi. cbn [strict_eq]. rewrite String.eqb_refl. reflexivity.
Qed.

(** X5: for an [id] that no stored note has, [updateNote] and
    [toggleFavorite] return [undefined] and leave the world as it was: no
    write, no reading of the clock.  [deleteNote] returns [false] and keeps
    the notes, and still calls [setItem]. *)
Theorem unknown_id_changes_no_note (id fields : option value) (w : world) :
  Forall (fun n => n <> JNull) (stored w) ->
  (forall n, List.In n (stored w) -> id_is id n = false) ->
  updateNote id fields w = (Returns None, w) /\
  toggleFavorite id w = (Returns None, w) /\
  exists w', deleteNote id w = (Returns false, w') /\
             stored w' = stored w /\ writes w' = S (writes w).
Proof.
  intros Hnn Hfree.
  assert (Hall : Forall (fun n => has_id id n = Returns false) (stored w)).
  { apply List.Forall_forall; intros n Hn.
    rewrite (has_id_pure id n (proj1 (List.Forall_forall _ _) Hnn n Hn)).
    f_equal. exact (Hfree n Hn). }
  split; [|split].
  - unfold updateNote, bind, gets, lift, ret. fold (stored w).
    rewrite (findIndexM_none _ _ Hall). reflexivity.
  - unfold toggleFavorite, bind, ret.
    rewrite (getNote_pure id w Hnn), (find_all_false _ _ Hfree). reflexivity.
  - destruct (deleteNote_returns id w Hnn) as (w' & Hd & Hh & Hw).
    exists w'. rewrite Hd. split; [|split; [|exact Hw]].
    + do 2 f_equal. apply not_true_is_false. intros E.
      apply existsb_exists in E as (n & Hn & E). pose proof (Hfree n Hn) as F.
      unfold id_is in F. congruence.
    + rewrite (holding_stored _ _ Hh). apply filter_all_in.
      intros n Hn. unfold other_id. apply negb_true_iff. exact (Hfree n Hn).
Qed.

(** X6: [deleteNote] throws exactly when a stored item is [null], which
    [readStore] lets through; it then leaves the world as it was. *)
Theorem deleteNote_throws_on_null_item (id : option value) (w : world) :
  (fst (deleteNote id w) = Throws <-> List.In JNull (stored w)) /\
  (List.In JNull (stored w) -> deleteNote id w = (Throws, w)).
Proof.
  assert (Hno : Forall (fun n => n <> JNull) (stored w) -> ~ List.In JNull (stored w)).
  { intros H Hin. exact (proj1 (List.Forall_forall _ _) H JNull Hin eq_refl). }
  split; [split|].
  - intros Ht. destruct (null_or_not (stored w)) as [Hin|Hnn]; [exact Hin|].
    destruct (deleteNote_returns id w Hnn) as (w' & Hd & _).
    rewrite Hd in Ht. discriminate Ht.
  - intros Hin. rewrite deleteNote_throws; [reflexivity|]. intros H. exact (Hno H Hin).
  - intros Hin. apply deleteNote_throws. intros H. exact (Hno H Hin).
Qed.

(** X7: deleting a note right after creating it, under an [id] that no
    other stored note has, returns [true] and restores the stored notes. *)
Theorem createNote_then_deleteNote
    (initial : option value) (w w' : world) (note : value) (s : string) :
  Forall (fun n => n <> JNull) (stored w) ->
  createNote initial w = (Returns note, w') ->
  prop note "id" = Some (JStr s) ->
  (forall n, List.In n (stored w) -> id_is (Some (JStr s)) n = false) ->
  exists w'', deleteNote (Some (JStr s)) w' = (Returns true, w'') /\
              stored w'' = stored w.
Proof.
  intros Hnn Hc Hi Hfree.
  destruct (createNote_inv initial w w' note Hc) as (Hv & Hh & _).
  pose proof (holding_stored _ _ Hh) as Hs.
  assert (Hnote : note <> JNull)
    by exact (note_tags_ok_not_null _ (normalizeNote_tags_ok _ _ _ Hv)).
  assert (Hnn' : Forall (fun n => n <> JNull) (stored w')).
  { rewrite Hs. apply List.Forall_app; split; [exact Hnn|].
    constructor; [exact Hnote | constructor]. }
  assert (Hself : strict_eq (prop note "id") (Some (JStr s)) = true)
    by (rewrite Hi; cbn [strict_eq]; apply String.eqb_refl).
  destruct (deleteNote_returns (Some (JStr s)) w' Hnn') as (w'' & Hd & Hh' & _).
  exists w''. rewrite Hd. split.
  - do 2 f_equal. apply existsb_exists. exists note. split; [|exact Hself].
    rewrite Hs. apply List.in_or_app. right; left; reflexivity.
  - rewrite (holding_stored _ _ Hh'), Hs, List.filter_app. cbn [List.filter].
    unfold other_id at 2. rewrite Hself. cbn [negb]. rewrite app_nil_r.
    apply filter_all_in. intros n Hn. unfold other_id. apply negb_true_iff.
    exact (Hfree n Hn).
Qed.
End Lookups.

(* ----------------------------------------------------------------- *)
(** *** Updating a note as the editor does *)

Lemma Patch_value_title (p : Patch) :
  own_props (Patch_value p) !! "title" = option_map JStr (p_title p).
Proof. destruct p as [[t|] [c|] [g|] [f|]]; reflexivity. Qed.

Lemma Patch_value_content (p : Patch) :
  own_props (Patch_value p) !! "content" = option_map JStr (p_content p).
Proof. destruct p as [[t|] [c|] [g|] [f|]]; reflexivity. Qed.

Lemma Patch_value_tags (p : Patch) :
  own_props (Patch_value p) !! "tags"
  = option_map (fun ts => JArr (map JStr ts)) (p_tags p).
Proof. destruct p as [[t|] [c|] [g|] [f|]]; reflexivity. Qed.

Lemma Patch_value_favorite (p : Patch) :
  own_props (Patch_value p) !! "favorite" = option_map JBool (p_favorite p).
Proof. destruct p as [[t|] [c|] [g|] [f|]]; reflexivity. Qed.

Lemma Patch_value_createdAt (p : Patch) : own_props (Patch_value p) !! "createdAt" = None.
Proof. destruct p as [[t|] [c|] [g|] [f|]]; reflexivity. Qed.

Lemma Note_value_fields (n : Note) :
  prop (Note_value n) "id" = Some (JStr (id n)) /\
  prop (Note_value n) "title" = Some (JStr (title n)) /\
  prop (Note_value n) "content" = Some (JStr (content n)) /\
  prop (Note_value n) "tags" = Some (JArr (map JStr (tags n))) /\
  prop (Note_value n) "favorite" = Some (JBool (favorite n)) /\
  prop (Note_value n) "createdAt" = Some (JStr (createdAt n)) /\
  prop (Note_value n) "updatedAt" = Some (JStr (updatedAt n)).
Proof. repeat split. Qed.

Lemma merged_Note (n : Note) (fields : value) (k : string) :
  merged (Note_value n) fields !! k
  = match own_props fields !! k with
    | Some v => Some v
    | None => prop (Note_value n) k
    end.
Proof.
  unfold merged. rewrite lookup_union.
  destruct (own_props fields !! k), (own_props (Note_value n) !! k) eqn:E;
    unfold Note_value, note_object, prop in *; cbn [own_props] in E; rewrite ?E; reflexivity.
Qed.

Lemma update_input_id (existing fields x : value) (stamp : string) :
  prop (update_input existing fields (Some x) stamp) "id" = Some x.
Proof.
  unfold update_input, obj_put; cbn [prop].
  rewrite lookup_insert_ne by discriminate. apply lookup_insert_eq.
Qed.

Lemma has_id_Note (i : string) (m : Note) :
  has_id (Some (JStr i)) (Note_value m) = Returns (String.eqb (id m) i).
Proof. unfold has_id, Note_value. rewrite note_object_get, note_object_id. reflexivity. Qed.

Lemma set_nth_middle {A} (l1 l2 : list A) (x y : A) :
  set_nth (List.length l1) x (l1 ++ y :: l2) = (l1 ++ x :: l2)%list.
Proof. induction l1 as [|z l1 IH]; cbn; [reflexivity | rewrite IH; reflexivity]. Qed.

Lemma map_trim_JStr (ts : list string) :
  map (fun t => trim (to_String t)) (map JStr ts) = map trim ts.
Proof. rewrite List.map_map. reflexivity. Qed.

Lemma find_first {A} (f : A -> bool) (l1 l2 : list A) (x : A) :
  (forall y, List.In y l1 -> f y = false) -> f x = true ->
  List.find f (l1 ++ x :: l2) = Some x.
Proof.
  intros H Hx; induction l1 as [|y l1 IH]; cbn [app List.find].
  - rewrite Hx; reflexivity.
  - rewrite (H y (or_introl eq_refl)). apply IH. intros z Hz; apply H; right; exact Hz.
Qed.

Section Patching.
Context {host : Host} {laws : HostLaws host}.

Lemma updateNote_patch_run (p : Patch) (before after : list Note) (n : Note) (w : world) :
  holding (map Note_value (before ++ n :: after)) w ->
  well_formed n ->
  (forall m, List.In m before -> id m <> id n) ->
  exists w',
    updateNote (Some (JStr (id n))) (Some (Patch_value p)) w
    = (Returns (Some (Note_value (patched n p (toISOString_at (reads w))))), w') /\
    holding (map Note_value (before ++ patched n p (toISOString_at (reads w)) :: after)) w' /\
    writes w' = S (writes w).
Proof.
  intros Hh (Hid & Hca & Htitle & Htags) Hfirst.
  pose proof (holding_stored _ _ Hh) as Hs.
  rewrite List.map_app in Hs; cbn [map] in Hs.
  set (stamp := toISOString_at (reads w)).
  assert (Hi : findIndexM (has_id (Some (JStr (id n)))) (stored w)
               = Returns (Some (List.length (map Note_value before)))).
  { rewrite Hs. apply findIndexM_first.
    - apply List.Forall_forall; intros v Hv.
      apply List.in_map_iff in Hv as (m & <- & Hm).
      rewrite has_id_Note. f_equal. apply String.eqb_neq, Hfirst, Hm.
    - rewrite has_id_Note, String.eqb_refl; reflexivity. }
  assert (He : nth (List.length (map Note_value before)) (stored w) JNull = Note_value n).
  { rewrite Hs. apply List.nth_middle. }
  set (input := update_input (Note_value n) (Patch_value p) (Some (JStr (id n))) stamp).
  set (s := match p_title p with Some t => t | None => title n end).
  assert (Hv : fst (normalizeNote (Some input) (ticked w))
               = Returns (Note_value (patched n p stamp))).
  { rewrite (normalizeNote_value input s (ticked w)); [|discriminate|].
    - f_equal. unfold normalized, input.
      rewrite update_input_id, update_input_updatedAt.
      rewrite !update_input_lookup by discriminate.
      rewrite !merged_Note.
      rewrite Patch_value_content, Patch_value_tags, Patch_value_favorite,
              Patch_value_createdAt.
      destruct (Note_value_fields n) as (_ & _ & -> & -> & -> & -> & _).
      unfold Note_value, patched.
      cbn [id title content tags favorite createdAt updatedAt].
      rewrite !or_else_Some_truthy by (apply truthy_JStr;
                                        first [assumption | apply toISOString_nonempty]).
      f_equal.
      + unfold s. destruct (p_title p); [reflexivity | exact Htitle].
      + destruct (p_content p); cbn [option_map]; apply or_else_JStr.
      + destruct (p_tags p) as [ts|]; cbn [option_map].
        * rewrite normalizeTags_first_seen, map_trim_JStr. reflexivity.
        * apply normalizeTags_fixed, Htags.
      + destruct (p_favorite p); cbn [option_map]; apply truthy_JBool.
    - unfold input. rewrite update_input_lookup by discriminate.
      rewrite merged_Note, Patch_value_title.
      destruct (Note_value_fields n) as (_ & -> & _).
      unfold s. destruct (p_title p); cbn [option_map]; apply or_else_JStr. }
  assert (Hv' : fst (normalizeNote
                       (Some (update_input
                                (nth (List.length (map Note_value before)) (stored w) JNull)
                                (or_empty_object (Some (Patch_value p)))
                                (Some (JStr (id n))) (toISOString_at (reads w))))
                       (ticked w))
                = Returns (Note_value (patched n p stamp)))
    by (rewrite He; exact Hv).
  destruct (updateNote_found _ _ w _ _ Hi Hv') as (w' & Hu & Hh' & Hw).
  exists w'. split; [exact Hu|]. split; [|exact Hw].
  rewrite Hs, set_nth_middle in Hh'.
  rewrite List.map_app; cbn [map]. exact Hh'.
Qed.
End Patching.

Lemma favorite_patch (b : bool) :
  JObj {[ "favorite" := JBool b ]} = Patch_value (mkPatch None None None (Some b)).
Proof. reflexivity. Qed.

Lemma patched_well_formed (n : Note) (b : bool) (stamp : string) :
  well_formed n -> well_formed (patched n (mkPatch None None None (Some b)) stamp).
Proof. intros H; exact H. Qed.

Section PatchingClaims.
Context {host : Host} {laws : HostLaws host}.

(** X8: for a stored note as [normalizeNote] leaves it, the first under
    its [id], [updateNote(id, fields)] with any of title, content, tags and
    favorite returns that note with the given fields written over it (the
    title trimmed, the tags trimmed, freed of empty strings and
    deduplicated) and [updatedAt] set to the time read for the update.  Its
    [id], its [createdAt] and the fields not given stay; the notes before
    and after it stay; [setItem] is called once. *)
Theorem updateNote_patches
    (p : Patch) (before after : list Note) (n : Note) (w : world) :
  holding (map Note_value (before ++ n :: after)) w ->
  well_formed n ->
  (forall m, List.In m before -> id m <> id n) ->
  exists w',
    updateNote (Some (JStr (id n))) (Some (Patch_value p)) w
    = (Returns (Some (Note_value (patched n p (toISOString_at (reads w))))), w') /\
    stored w'
    = map Note_value (before ++ patched n p (toISOString_at (reads w)) :: after) /\
    writes w' = S (writes w).
Proof.
  intros Hh Hwf Hfirst.
  destruct (updateNote_patch_run p before after n w Hh Hwf Hfirst) as (w' & Hu & Hh' & Hw).
  exists w'. split; [exact Hu|]. split; [apply holding_stored, Hh' | exact Hw].
Qed.

Lemma toggleFavorite_run (before after : list Note) (n : Note) (w : world) :
  holding (map Note_value (before ++ n :: after)) w ->
  well_formed n ->
  (forall m, List.In m before -> id m <> id n) ->
  exists w',
    toggleFavorite (Some (JStr (id n))) w
    = (Returns (Some (Note_value
                        (patched n (mkPatch None None None (Some (negb (favorite n))))
                                 (toISOString_at (reads w))))), w') /\
    holding (map Note_value
               (before ++ patched n (mkPatch None None None (Some (negb (favorite n))))
                                  (toISOString_at (reads w)) :: after)) w'.
Proof.
  intros Hh Hwf Hfirst.
  pose proof (holding_stored _ _ Hh) as Hs.
  assert (Hnn : Forall (fun v => v <> JNull) (stored w)).
  { rewrite Hs. apply List.Forall_forall. intros v Hv.
    apply List.in_map_iff in Hv as (m & <- & _). discriminate. }
  assert (Hf : List.find (id_is (Some (JStr (id n)))) (stored w) = Some (Note_value n)).
  { rewrite Hs, List.map_app. cbn [map]. apply find_first.
    - intros v Hv. apply List.in_map_iff in Hv as (m & <- & Hm).
      unfold id_is. destruct (Note_value_fields m) as (-> & _). cbn [strict_eq].
      apply String.eqb_neq, Hfirst, Hm.
    - unfold id_is. destruct (Note_value_fields n) as (-> & _). cbn [strict_eq].
      apply String.eqb_refl. }
  destruct (updateNote_patch_run (mkPatch None None None (Some (negb (favorite n))))
              before after n w Hh Hwf Hfirst) as (w' & Hu & Hh' & _).
  exists w'. split; [|exact Hh'].
  unfold toggleFavorite, bind, lift, ret.
  rewrite (getNote_pure _ w Hnn), Hf.
  change (truthy (Some (Note_value n))) with true. cbn [negb or_else].
  change (truthy (Some (Note_value n))) with true. cbv beta iota.
  unfold Note_value at 1. rewrite note_object_get, note_object_favorite.
  rewrite truthy_JBool, favorite_patch. exact Hu.
Qed.

(** X9: [toggleFavorite(id)] on such a note returns it with [favorite]
    negated and a fresh [updatedAt], all else as it was; a second toggle
    returns it with [favorite] as at first, and with the [id], title,
    content, tags and [createdAt] it always had. *)
Theorem toggleFavorite_twice (before after : list Note) (n : Note) (w : world) :
  holding (map Note_value (before ++ n :: after)) w ->
  well_formed n ->
  (forall m, List.In m before -> id m <> id n) ->
  exists n1 n2 w1 w2,
    toggleFavorite (Some (JStr (id n))) w = (Returns (Some (Note_value n1)), w1) /\
    n1 = mkNote (id n) (title n) (content n) (tags n) (negb (favorite n)) (createdAt n)
                (toISOString_at (reads w)) /\
    stored w1 = map Note_value (before ++ n1 :: after) /\
    toggleFavorite (Some (JStr (id n))) w1 = (Returns (Some (Note_value n2)), w2) /\
    n2 = mkNote (id n) (title n) (content n) (tags n) (favorite n) (createdAt n)
                (toISOString_at (reads w1)) /\
    stored w2 = map Note_value (before ++ n2 :: after).
Proof.
  intros Hh Hwf Hfirst.
  destruct (toggleFavorite_run before after n w Hh Hwf Hfirst) as (w1 & Ht1 & Hh1).
  set (n1 := patched n (mkPatch None None None (Some (negb (favorite n))))
                     (toISOString_at (reads w))) in *.
  destruct (toggleFavorite_run before after n1 w1 Hh1
              (patched_well_formed n _ _ Hwf) Hfirst) as (w2 & Ht2 & Hh2).
  exists n1, (patched n1 (mkPatch None None None (Some (negb (favorite n1))))
                      (toISOString_at (reads w1))), w1, w2.
  split; [exact Ht1|]. split; [reflexivity|].
  split; [apply holding_stored, Hh1|]. split; [exact Ht2|].
  split; [|apply holding_stored, Hh2].
  unfold patched, n1; cbn. rewrite negb_involutive. reflexivity.
Qed.
End PatchingClaims.

(* ----------------------------------------------------------------- *)
(** *** Listing again *)

Lemma sortM_of_sorted {A} (cmp : A -> A -> outcome (option Z)) (c : A -> A -> Z)
    (D : A -> Prop) (l : list A) :
  (forall a b, D a -> D b -> cmp a b = Returns (Some (c a b))) ->
  Forall D l ->
  StronglySorted (fun a b => c a b <= 0) l ->
  sortM cmp l = Returns l.
Proof.
  intros Hpure Hd Hs. induction Hs as [|x l Hl IH Hx]; [reflexivity|].
  inversion Hd as [|? ? Dx Dl]; subst.
  cbn [sortM]. rewrite (IH Dl); cbn [obind].
  destruct l as [|y r]; [reflexivity|].
  inversion Dl as [|? ? Dy _]; subst. inversion Hx as [|? ? Hxy _]; subst.
  cbn [insertM]. rewrite (Hpure x y Dx Dy); cbn [obind comes_after].
  destruct (Z.ltb_spec 0 (c x y)); [lia | reflexivity].
Qed.

Lemma toLowerCase_empty_inv (x : string) : toLowerCase x = EmptyString -> x = EmptyString.
Proof. destruct x; [reflexivity | discriminate]. Qed.

Section ListingAgain.
Context {host : Host} {laws : HostLaws host}.

(** X10: on notes whose [updatedAt] is a time, [sortNotes] returns a
    sequence that [sortNotes] returns unchanged: sorting is idempotent. *)
Theorem sortNotes_idempotent (ns : list Note) :
  Forall timed ns ->
  exists out,
    sortNotes (map Note_value ns) = Returns (map Note_value out) /\
    sortNotes (map Note_value out) = Returns (map Note_value out).
Proof.
  intros Ht. destruct (sortNotes_sorts ns Ht) as (out & Hs & Hp & Hso & _).
  exists out. split; [exact Hs|].
  assert (Hto : Forall timed out).
  { apply List.Forall_forall; intros y Hy.
    apply (proj1 (List.Forall_forall _ _) Ht), (Permutation_in _ Hp), Hy. }
  unfold sortNotes. rewrite sortM_map.
  rewrite (sortM_of_sorted _ Note_compare timed out); [reflexivity | | exact Hto |].
  - intros a b Ha Hb. destruct (compareNotes_Note a b) as (v & Hv & E).
    rewrite Hv, (E Ha Hb); reflexivity.
  - clear Hs Hp. induction Hso as [|x l Hl IH Hx]; constructor.
    + apply IH. inversion Hto; assumption.
    + inversion Hto as [|? ? Dx Dl]; subst.
      apply List.Forall_forall; intros y Hy.
      apply Note_compare_in_order;
        [exact Dx | exact (proj1 (List.Forall_forall _ _) Dl y Hy)
         | exact (proj1 (List.Forall_forall _ _) Hx y Hy)].
Qed.
End ListingAgain.

Section BlankOptions.
Context {host : Host}.

(** X11: a [query] of white space only restricts nothing, so the listing
    is that of no options; a [tag] of white space only lists no note, as
    long as no note has an empty tag. *)
Theorem listNotes_blank_options (ns : list Note) (w : world) (q t : string) :
  holding (map Note_value ns) w ->
  (trim q = EmptyString ->
   listNotes (Some (Options_value (mkOptions None None (Some q)))) w = listNotes None w) /\
  (t <> EmptyString -> trim t = EmptyString ->
   (forall n, List.In n ns -> ~ List.In EmptyString (tags n)) ->
   listNotes (Some (Options_value (mkOptions (Some t) None None))) w = Returns []).
Proof.
  intros Hh. split.
  - intros Hq.
    change (listNotes None w)
      with (listNotes (Some (Options_value (mkOptions None None None))) w).
    rewrite !(listNotes_filters _ ns w Hh). do 2 f_equal.
    apply List.filter_ext. intros n. unfold matches; cbn [opt_favorites opt_tag opt_query].
    rewrite Hq. change (toLowerCase EmptyString) with EmptyString.
    rewrite includes_empty. reflexivity.
  - intros Ht Htrim Htags.
    rewrite (listNotes_filters _ ns w Hh).
    rewrite (filter_none (matches (mkOptions (Some t) None None)) ns); [reflexivity|].
    apply List.Forall_forall. intros n Hn.
    unfold matches; cbn [opt_favorites opt_tag opt_query].
    destruct t as [|c r]; [congruence|]. rewrite Htrim.
    change (toLowerCase EmptyString) with EmptyString.
    rewrite andb_true_r. cbn [andb].
    apply not_true_is_false. intros E. apply existsb_exists in E as (x & Hx & E).
    apply String.eqb_eq, toLowerCase_empty_inv in E. subst x.
    exact (Htags n Hn Hx).
Qed.
End BlankOptions.

(* ----------------------------------------------------------------- *)
(** *** Counting tags that were not normalized *)

Lemma for_of_count_tag_raw (ts : list string) (m : list (string * Z)) :
  for_of (map JStr ts) count_tag m
  = Returns (fold_left bump (List.filter nonempty (map trim ts)) m).
Proof.
  revert m. induction ts as [|t ts IH]; intros m; [reflexivity|].
  cbn [map for_of List.filter]. unfold count_tag at 1. cbn [as_string obind].
  destruct (nonempty (trim t)) eqn:E; cbn [negb obind fold_left]; apply IH.
Qed.

Lemma count_tags_raw (m : list (string * Z)) (n : value) :
  tags_are_strings n ->
  count_tags m n
  = Returns (fold_left bump (List.filter nonempty (map trim (tags_of n))) m).
Proof.
  intros [Hn [Hp|(ts & Hp)]]; unfold count_tags, tags_of;
    rewrite (get_prop n "tags" Hn), Hp; cbn [obind or_else truthy iterate].
  - reflexivity.
  - rewrite strings_of_map_JStr. apply for_of_count_tag_raw.
Qed.

Lemma for_of_count_tags_raw (notes : list value) (m : list (string * Z)) :
  Forall tags_are_strings notes ->
  for_of notes count_tags m = Returns (fold_left bump (counted_tags notes) m).
Proof.
  intros H; revert m. induction H as [|n notes Hn _ IH]; intros m; [reflexivity|].
  cbn [for_of]. rewrite (count_tags_raw m n Hn). cbn [obind].
  unfold counted_tags; cbn [flat_map]. rewrite IH, List.fold_left_app. reflexivity.
Qed.

Section RawTags.
Context {host : Host} {laws : HostLaws host}.

(** X12: on stored notes whose [tags] is missing or an array of strings,
    normalized or not, [listTags()] returns one entry for each distinct
    non-empty trimmed tag, and its count is the number of occurrences of
    tags that trim to it, over all notes: a note that has the tag twice
    counts twice.  The entries ascend by [localeCompare]; an empty
    collection gives no entry. *)
Theorem listTags_counts_occurrences (w : world) :
  Forall tags_are_strings (stored w) ->
  exists out,
    listTags w = Returns out /\
    List.NoDup (map tag out) /\
    (forall t, List.In t (map tag out) <-> List.In t (counted_tags (stored w))) /\
    (forall e, List.In e out ->
               count e = Z.of_nat (count_occ string_dec (counted_tags (stored w)) (tag e))) /\
    StronglySorted (fun a b => localeCompare (tag a) (tag b) <= 0) out /\
    (stored w = [] -> out = []).
Proof.
  intros H.
  set (all := counted_tags (stored w)).
  set (m := fold_left bump all []).
  set (entries := map (fun kc => mkTagCount (fst kc) (snd kc)) m).
  assert (Hl : listTags w
               = sortM (fun a b => Returns (Some (localeCompare (tag a) (tag b)))) entries).
  { unfold listTags. fold (stored w). rewrite (for_of_count_tags_raw _ _ H). reflexivity. }
  destruct (sortM_sorts (fun a b => Returns (Some (localeCompare (tag a) (tag b))))
                        (fun a b => localeCompare (tag a) (tag b))
                        (fun _ => True)) with (l := entries)
    as (out & Hs & Hp & Hso & _).
  { reflexivity. }
  { intros a b _ _. apply localeCompare_antisym. }
  { intros a b d _ _ _. apply localeCompare_trans. }
  { apply List.Forall_forall; trivial. }
  assert (Hkeys : map tag entries = dedup_first_seen all).
  { unfold entries. rewrite List.map_map. cbn [tag].
    change (map (fun x : string * Z => fst x) m) with (map fst m).
    unfold m. rewrite fold_bump_keys. apply Set_values_first_seen. }
  assert (Hnd : List.NoDup (map fst m)).
  { replace (map fst m) with (map tag entries)
      by (unfold entries; rewrite List.map_map; reflexivity).
    rewrite Hkeys. apply dedup_first_seen_NoDup. }
  exists out. split; [rewrite Hl; exact Hs|]. split; [|split; [|split; [|split]]].
  - apply (Permutation_NoDup (Permutation_map tag (Permutation_sym Hp))).
    rewrite Hkeys. apply dedup_first_seen_NoDup.
  - intros t. split.
    + intros Hin. apply (Permutation_in _ (Permutation_map tag Hp)) in Hin.
      rewrite Hkeys in Hin. exact (proj1 (dedup_first_seen_In _ _) Hin).
    + intros Hin. apply (Permutation_in _ (Permutation_map tag (Permutation_sym Hp))).
      rewrite Hkeys. exact (proj2 (dedup_first_seen_In _ _) Hin).
  - intros e He. apply (Permutation_in _ Hp) in He.
    unfold entries in He. apply List.in_map_iff in He as ([k c] & <- & Hin).
    cbn [tag count fst snd].
    pose proof (Map_get_In m k c Hnd Hin) as Hg.
    pose proof (fold_bump_get all [] k) as Hc. fold m in Hc.
    rewrite Hg in Hc. cbn [or_zero Map_get] in Hc. exact Hc.
  - exact Hso.
  - intros He. unfold entries, m, all in Hp. rewrite He in Hp. cbn in Hp.
    apply Permutation_nil. symmetry. exact Hp.
Qed.
End RawTags.

(* ================================================================= *)
(** ** The tag input *)

Lemma clean_tags_ok (next : option (list string)) : tags_ok (clean_tags next).
Proof.
  unfold clean_tags. rewrite Set_values_first_seen. repeat split.
  - apply dedup_first_seen_NoDup.
  - rewrite dedup_first_seen_In, List.filter_In. intros [_ H]; discriminate.
  - apply List.Forall_forall; intros t.
    rewrite dedup_first_seen_In, List.filter_In, List.in_map_iff.
    intros [(x & <- & _) _]. apply trim_idempotent.
Qed.

Lemma tags_ok_sub (l l' : list string) :
  tags_ok l -> List.NoDup l' -> (forall t, List.In t l' -> List.In t l) -> tags_ok l'.
Proof.
  intros (_ & Hne & Htr) Hnd Hin. repeat split; [exact Hnd | |].
  - intros H; apply Hne, Hin, H.
  - apply List.Forall_forall; intros t Ht.
    exact (proj1 (List.Forall_forall _ _) Htr t (Hin t Ht)).
Qed.

Lemma tags_ok_snoc (l : list string) (t : string) :
  tags_ok l -> trim t = t -> t <> EmptyString -> ~ List.In t l -> tags_ok (l ++ [t]).
Proof.
  intros (Hnd & Hne & Htr) Ht Hn Hin. repeat split.
  - apply List.NoDup_app; [exact Hnd | constructor; [intros [] | constructor] |].
    intros x Hx [<-|[]]. exact (Hin Hx).
  - intros H. apply List.in_app_or in H as [H|[H|[]]]; [exact (Hne H) | congruence].
  - apply List.Forall_app; split; [exact Htr | constructor; [exact Ht | constructor]].
Qed.

Lemma add_part_ok (tags : list string) (part : string) :
  tags_ok tags -> tags_ok (add_part tags part).
Proof.
  intros H. unfold add_part.
  destruct (nonempty (trim part)) eqn:E; cbn [negb]; [|exact H].
  destruct (existsb (String.eqb (trim part)) tags) eqn:Ex; [exact H|].
  apply tags_ok_snoc; [exact H | apply trim_idempotent | apply nonempty_true, E |].
  intros Hin. apply existsb_eqb_In in Hin. congruence.
Qed.

Lemma fold_add_part_ok (parts tags : list string) :
  tags_ok tags -> tags_ok (fold_left add_part parts tags).
Proof.
  revert tags; induction parts as [|p parts IH]; intros tags H; [exact H|].
  cbn [fold_left]. apply IH, add_part_ok, H.
Qed.

Lemma removelast_In {A} (l : list A) (x : A) : List.In x (removelast l) -> List.In x l.
Proof.
  induction l as [|y l IH]; [intros []|].
  destruct l as [|z l]; [intros []|].
  intros [<-|H]; [left; reflexivity | right; apply IH, H].
Qed.

Lemma removelast_NoDup {A} (l : list A) : List.NoDup l -> List.NoDup (removelast l).
Proof.
  induction 1 as [|x l Hx Hl IH]; [constructor|].
  destruct l as [|z l]; [constructor|].
  change (removelast (x :: z :: l)) with (x :: removelast (z :: l)).
  constructor; [|exact IH]. intros H; apply Hx, removelast_In, H.
Qed.

Lemma tag_step_ok (e : TagEvent) (st : TagInput) :
  tags_ok (ti_tags st) ->
  tags_ok (ti_tags (fst (tag_step e st))) /\ Forall tags_ok (snd (tag_step e st)).
Proof.
  intros H.
  assert (Hadd : tags_ok (ti_tags (fst (addTagFromValue st))) /\
                 Forall tags_ok (snd (addTagFromValue st))).
  { unfold addTagFromValue. destruct (negb (nonempty (ti_value st))); cbn [fst snd ti_tags].
    - split; [exact H | constructor].
    - pose proof (fold_add_part_ok (split_commas (ti_value st)) _ H).
      split; [assumption | constructor; [assumption | constructor]]. }
  destruct e as [key| |v|label|next]; cbn [tag_step].
  - unfold on_keydown. destruct (_ || _); [exact Hadd|].
    destruct (_ && _); cbn [fst snd ti_tags]; [|split; [exact H | constructor]].
    assert (tags_ok (removelast (ti_tags st))).
    { apply (tags_ok_sub (ti_tags st)); [exact H | apply removelast_NoDup, H
                                         | apply removelast_In]. }
    split; [assumption | constructor; [assumption | constructor]].
  - exact Hadd.
  - split; [exact H | constructor].
  - unfold removeTag; cbn [fst snd ti_tags].
    assert (tags_ok (List.filter (fun t => negb (String.eqb t label)) (ti_tags st))).
    { apply (tags_ok_sub (ti_tags st)); [exact H | apply List.NoDup_filter, H |].
      intros t Ht. apply List.filter_In in Ht. tauto. }
    split; [assumption | constructor; [assumption | constructor]].
  - unfold setTags; cbn [fst snd ti_tags].
    split; [apply clean_tags_ok | constructor; [apply clean_tags_ok | constructor]].
Qed.

Lemma tagInput_keeps_tags_ok_aux (initial : option (list string)) (events : list TagEvent) :
  tags_ok (ti_tags (fst (tag_run initial events))) /\
  Forall tags_ok (snd (tag_run initial events)).
Proof.
  unfold tag_run.
  assert (H0 : tags_ok (ti_tags (fst (tagInput initial))) /\
               Forall tags_ok (snd (tagInput initial))).
  { cbn [tagInput fst snd ti_tags].
    split; [apply clean_tags_ok | constructor; [apply clean_tags_ok | constructor]]. }
  revert H0. generalize (tagInput initial) as acc.
  induction events as [|e events IH]; intros acc [H1 H2]; [split; assumption|].
  cbn [fold_left]. apply IH. cbn [fst snd].
  destruct (tag_step_ok e (fst acc) H1) as [H3 H4].
  split; [exact H3 | apply List.Forall_app; split; assumption].
Qed.

(** X13: whatever array a tag input starts from and whatever happens to
    it, its tags have no duplicate, no empty string and no untrimmed string,
    and so has every list it passes to [onChange]. *)
Theorem tagInput_keeps_tags_ok (initial : option (list string)) (events : list TagEvent) :
  tags_ok (getTags (fst (tag_run initial events))) /\
  Forall tags_ok (snd (tag_run initial events)).
Proof. exact (tagInput_keeps_tags_ok_aux initial events). Qed.

Lemma fold_add_part_Set_add (parts tags : list string) :
  fold_left add_part parts tags
  = fold_left Set_add (List.filter nonempty (map trim parts)) tags.
Proof.
  revert tags; induction parts as [|p parts IH]; intros tags; [reflexivity|].
  cbn [fold_left map List.filter]. rewrite IH. unfold add_part.
  destruct (nonempty (trim p)); reflexivity.
Qed.

(** X14: [addTagFromValue()] keeps the tags it has, in place, and appends
    the parts of the field between commas, trimmed, that are not empty and
    not among the tags yet, each once, in the order they first appear.  On
    an empty field it does nothing and reports nothing; otherwise it clears
    the field and reports the tags once. *)
Theorem addTagFromValue_appends (st : TagInput) :
  ti_tags (fst (addTagFromValue st))
  = (ti_tags st ++
     List.filter (fun t => negb (existsb (String.eqb t) (ti_tags st)))
       (dedup_first_seen
          (List.filter nonempty (map trim (split_commas (ti_value st))))))%list /\
  (ti_value st = EmptyString -> addTagFromValue st = (st, [])) /\
  (ti_value st <> EmptyString ->
   ti_value (fst (addTagFromValue st)) = EmptyString /\
   snd (addTagFromValue st) = [ti_tags (fst (addTagFromValue st))]).
Proof.
  split; [|split].
  - unfold addTagFromValue. destruct (ti_value st) as [|c r] eqn:E; cbn [nonempty negb fst ti_tags].
    + cbn. rewrite app_nil_r. reflexivity.
    + rewrite fold_add_part_Set_add. apply fold_Set_add.
  - intros E. unfold addTagFromValue. rewrite E. reflexivity.
  - intros E. unfold addTagFromValue.
    destruct (ti_value st); [congruence|]. split; reflexivity.
Qed.

Lemma tags_ok_clean (ts : list string) :
  tags_ok ts -> dedup_first_seen (List.filter nonempty (map trim ts)) = ts.
Proof.
  intros (Hnd & Hne & Htr).
  assert (E : map trim ts = ts).
  { clear Hnd Hne. induction Htr as [|t ts Ht _ IH]; cbn [map]; [reflexivity|].
    rewrite Ht, IH; reflexivity. }
  rewrite E, filter_nonempty_fixed by assumption.
  apply dedup_first_seen_fixed, Hnd.
Qed.

Lemma tags_patch (ts : list string) :
  JObj {[ "tags" := JArr (map JStr ts) ]} = Patch_value (mkPatch None None (Some ts) None).
Proof. reflexivity. Qed.

Section TagsToStore.
Context {host : Host} {laws : HostLaws host}.

(** X15: every list of tags a tag input passes to [onChange] is stored
    as it is by [updateNote(id, { tags })]: for a stored note as
    [normalizeNote] leaves it, the first under its [id], the note returned
    has exactly these tags, in this order, and only its [updatedAt] changes
    besides. *)
Theorem tagInput_tags_stored_as_shown
    (initial : option (list string)) (events : list TagEvent) (ts : list string)
    (before after : list Note) (n : Note) (w : world) :
  List.In ts (snd (tag_run initial events)) ->
  holding (map Note_value (before ++ n :: after)) w ->
  well_formed n ->
  (forall m, List.In m before -> id m <> id n) ->
  exists w',
    updateNote (Some (JStr (id n))) (Some (JObj {[ "tags" := JArr (map JStr ts) ]})) w
    = (Returns (Some (Note_value (mkNote (id n) (title n) (content n) ts (favorite n)
                                         (createdAt n) (toISOString_at (reads w))))),
       w').
Proof.
  intros Hin Hh Hwf Hfirst.
  pose proof (proj2 (tagInput_keeps_tags_ok_aux initial events)) as Hall.
  pose proof (proj1 (List.Forall_forall _ _) Hall ts Hin) as Hok.
  destruct (updateNote_patch_run (mkPatch None None (Some ts) None) before after n w
              Hh Hwf Hfirst) as (w' & Hu & _).
  exists w'. rewrite tags_patch, Hu. do 4 f_equal.
  unfold patched; cbn [p_title p_content p_tags p_favorite].
  rewrite (tags_ok_clean ts Hok). reflexivity.
Qed.
End TagsToStore.

(* ================================================================= *)
(** ** The further properties on the sample collection *)

Lemma sample_world_not_null : Forall (fun n => n <> JNull) (stored sample_world).
Proof.
  rewrite (holding_stored _ _ sample_world_holding).
  repeat constructor; discriminate.
Qed.

Lemma sample_world_free (s : string) :
  String.eqb "A" s = false -> String.eqb "B" s = false -> String.eqb "C" s = false ->
  forall n, List.In n (stored sample_world) -> id_is (Some (JStr s)) n = false.
Proof.
  intros HA HB HC n Hn.
  rewrite (holding_stored _ _ sample_world_holding) in Hn.
  destruct Hn as [<-|[<-|[<-|[]]]]; unfold id_is;
    rewrite (proj1 (Note_value_fields _)); cbn [strict_eq id note_A note_B note_C];
    assumption.
Qed.

Lemma note_A_well_formed : well_formed note_A.
Proof.
  unfold well_formed. repeat split; try discriminate; try reflexivity.
  - constructor; [intros [] | constructor].
  - intros [E|[]]; discriminate E.
  - constructor; [reflexivity | constructor].
Qed.

Lemma createNote_then_getNote_witness :
  getNote (Some (JStr "A"))
          (snd (createNote (host := sample_host)
                  (Some (JObj {[ "title" := JStr "new" ]})) sample_world))
  = Returns (Some (Note_value note_A)).
Proof.
  destruct (createNote_then_getNote (host := sample_host)
              (Some (JObj {[ "title" := JStr "new" ]})) (Some (JStr "A")) sample_world
              (snd (createNote (host := sample_host)
                      (Some (JObj {[ "title" := JStr "new" ]})) sample_world))
              (Note_value (mkNote "3f2a9c1e-0000-4000-8000-0" "new" EmptyString [] false
                                  "2024-05-01T12:00:00.100Z" "2024-05-01T12:00:00.100Z")))
    as [H _].
  - exact sample_world_not_null.
  - vm_compute; reflexivity.
  - rewrite H. vm_compute; reflexivity.
Defined.

Lemma unknown_id_changes_no_note_witness :
  updateNote (host := sample_host) (Some (JStr "Z"))
             (Some (JObj {[ "title" := JStr "new" ]})) sample_world
  = (Returns None, sample_world).
Proof.
  refine (proj1 (unknown_id_changes_no_note (host := sample_host) (Some (JStr "Z"))
                   (Some (JObj {[ "title" := JStr "new" ]})) sample_world
                   sample_world_not_null _)).
  apply sample_world_free; reflexivity.
Defined.

Lemma createNote_then_deleteNote_witness :
  exists w'',
    deleteNote (Some (JStr "3f2a9c1e-0000-4000-8000-0"))
               (snd (createNote (host := sample_host)
                       (Some (JObj {[ "title" := JStr "new" ]})) sample_world))
    = (Returns true, w'') /\
    stored w'' = stored sample_world.
Proof.
  refine (createNote_then_deleteNote (host := sample_host)
            (Some (JObj {[ "title" := JStr "new" ]})) sample_world
            (snd (createNote (host := sample_host)
                    (Some (JObj {[ "title" := JStr "new" ]})) sample_world))
            (Note_value (mkNote "3f2a9c1e-0000-4000-8000-0" "new" EmptyString [] false
                                "2024-05-01T12:00:00.100Z" "2024-05-01T12:00:00.100Z"))
            "3f2a9c1e-0000-4000-8000-0" sample_world_not_null _ _ _).
  - vm_compute; reflexivity.
  - vm_compute; reflexivity.
  - apply sample_world_free; reflexivity.
Defined.

Lemma updateNote_patches_witness :
  exists w',
    updateNote (host := sample_host) (Some (JStr "A"))
      (Some (Patch_value (mkPatch (Some " New ") None (Some ["x"; " x"; "y"]) None)))
      sample_world
    = (Returns (Some (Note_value (mkNote "A" "New" "alpha" ["x"; "y"] true
                                         "2024-04-30T08:00:00.000Z"
                                         "2024-05-01T12:00:00.100Z"))), w') /\
    stored w'
    = map Note_value [mkNote "A" "New" "alpha" ["x"; "y"] true
                             "2024-04-30T08:00:00.000Z" "2024-05-01T12:00:00.100Z";
                      note_B; note_C] /\
    writes w' = 1%nat.
Proof.
  exact (updateNote_patches (host := sample_host) (laws := sample_host_laws)
           (mkPatch (Some " New ") None (Some ["x"; " x"; "y"]) None)
           [] [note_B; note_C] note_A sample_world
           sample_world_holding note_A_well_formed (fun m (H : List.In m []) => match H with end)).
Defined.

Lemma toggleFavorite_twice_witness :
  exists n1 n2 w1 w2,
    toggleFavorite (host := sample_host) (Some (JStr "A")) sample_world
    = (Returns (Some (Note_value n1)), w1) /\
    favorite n1 = false /\
    toggleFavorite (host := sample_host) (Some (JStr "A")) w1
    = (Returns (Some (Note_value n2)), w2) /\
    favorite n2 = true /\ tags n2 = ["x"] /\ createdAt n2 = "2024-04-30T08:00:00.000Z".
Proof.
  destruct (toggleFavorite_twice (host := sample_host) (laws := sample_host_laws)
              [] [note_B; note_C] note_A sample_world
              sample_world_holding note_A_well_formed
              (fun m (H : List.In m []) => match H with end))
    as (n1 & n2 & w1 & w2 & H1 & E1 & _ & H2 & E2 & _).
  exists n1, n2, w1, w2.
  split; [exact H1|]. split; [rewrite E1; reflexivity|].
  split; [exact H2|]. rewrite E2. repeat split.
Defined.

Lemma sortNotes_idempotent_witness :
  exists out,
    sortNotes (host := sample_host) (map Note_value [note_A; note_B; note_C])
    = Returns (map Note_value out) /\
    sortNotes (host := sample_host) (map Note_value out) = Returns (map Note_value out).
Proof.
  exact (sortNotes_idempotent (host := sample_host) (laws := sample_host_laws)
           [note_A; note_B; note_C] sample_world_timed).
Defined.

Lemma listNotes_blank_options_witness :
  listNotes (host := sample_host) (Some (Options_value (mkOptions None None (Some "  "))))
            sample_world
  = listNotes (host := sample_host) None sample_world /\
  listNotes (host := sample_host) (Some (Options_value (mkOptions (Some " ") None None)))
            sample_world
  = Returns [].
Proof.
  destruct (listNotes_blank_options (host := sample_host) [note_A; note_B; note_C]
              sample_world "  " " " sample_world_holding) as [Hq Ht].
  split; [apply Hq; reflexivity|].
  apply Ht; [discriminate | reflexivity |].
  intros n [<-|[<-|[<-|[]]]] [E|[]]; discriminate E.
Defined.

Lemma listTags_counts_occurrences_witness :
  exists out,
    listTags (host := sample_host)
      (mkWorld {[ STORAGE_KEY :=
                    Wellformed
                      (JObj {[ "notes" :=
                                 JArr [JObj {[ "tags" := JArr (map JStr ["a"; " a"; "b"]) ]};
                                       JObj {[ "tags" := JArr (map JStr ["a"]) ]};
                                       JObj ∅] ]}) ]} 0 0 0)
    = Returns out /\
    out = [mkTagCount "a" 3; mkTagCount "b" 1].
Proof.
  destruct (listTags_counts_occurrences (host := sample_host) (laws := sample_host_laws)
              (mkWorld {[ STORAGE_KEY :=
                            Wellformed
                              (JObj {[ "notes" :=
                                         JArr [JObj {[ "tags" := JArr (map JStr ["a"; " a"; "b"]) ]};
                                               JObj {[ "tags" := JArr (map JStr ["a"]) ]};
                                               JObj ∅] ]}) ]} 0 0 0))
    as (out & Hl & _).
  - change (Forall tags_are_strings
              [JObj {[ "tags" := JArr (map JStr ["a"; " a"; "b"]) ]};
               JObj {[ "tags" := JArr (map JStr ["a"]) ]};
               JObj ∅]).
    constructor; [split; [discriminate | right; exists ["a"; " a"; "b"]; reflexivity]|].
    constructor; [split; [discriminate | right; exists ["a"]; reflexivity]|].
    constructor; [split; [discriminate | left; reflexivity] | constructor].
  - exists out. split; [exact Hl|].
    assert (E : fst (Returns out, tt) = fst (Returns [mkTagCount "a" 3; mkTagCount "b" 1], tt)).
    { cbn [fst]. rewrite <- Hl. vm_compute; reflexivity. }
    injection E; trivial.
Defined.

Lemma tagInput_tags_stored_as_shown_witness :
  exists w',
    updateNote (host := sample_host) (Some (JStr "A"))
      (Some (JObj {[ "tags" := JArr (map JStr ["x"; "y"; "z"]) ]})) sample_world
    = (Returns (Some (Note_value (mkNote "A" "b" "alpha" ["x"; "y"; "z"] true
                                         "2024-04-30T08:00:00.000Z"
                                         (toISOString_at (Host := sample_host) 0)))),
       w').
Proof.
  refine (tagInput_tags_stored_as_shown (host := sample_host) (laws := sample_host_laws)
            (Some ["x"]) [Edit "y, z,x"; Keydown "Enter"] ["x"; "y"; "z"]
            [] [note_B; note_C] note_A sample_world
            _ sample_world_holding note_A_well_formed
            (fun m (H : List.In m []) => match H with end)).
  right; left; reflexivity.
Defined.

(* ================================================================= *)
(** ** The handlers of the application *)

Lemma bind_returns {A B} (m : M A) (k : A -> M B) (w w' : world) (b : B) :
  bind m k w = (Returns b, w') ->
  exists a w1, m w = (Returns a, w1) /\ k a w1 = (Returns b, w').
Proof.
  unfold bind. destruct (m w) as [[a|] w1]; [|discriminate].
  intros H. exists a, w1. split; [reflexivity | exact H].
Qed.

Lemma bind_count {A B} (m : M A) (k : A -> M B) (w : world) :
  List.length (stored (snd (m w))) = List.length (stored w) ->
  (forall a w1, List.length (stored (snd (k a w1))) = List.length (stored w1)) ->
  List.length (stored (snd (bind m k w))) = List.length (stored w).
Proof.
  intros Hm Hk. unfold bind. destruct (m w) as [[a|] w1]; cbn [snd] in *.
  - rewrite Hk. exact Hm.
  - exact Hm.
Qed.

Lemma set_nth_length {A} (i : nat) (x : A) (l : list A) :
  List.length (set_nth i x l) = List.length l.
Proof.
  revert i; induction l as [|y l IH]; intros [|i]; cbn; try reflexivity.
  rewrite IH; reflexivity.
Qed.

Lemma insertM_length {A} (cmp : A -> A -> outcome (option Z)) (x : A) (l out : list A) :
  insertM cmp x l = Returns out -> List.length out = S (List.length l).
Proof.
  revert out; induction l as [|y l IH]; intros out; cbn [insertM].
  - intros [= <-]; reflexivity.
  - destruct (cmp x y) as [v|]; cbn [obind]; [|discriminate].
    destruct (comes_after v).
    + destruct (insertM cmp x l) as [r|]; cbn [obind]; [|discriminate].
      intros [= <-]. cbn [List.length]. rewrite (IH r eq_refl). reflexivity.
    + intros [= <-]; reflexivity.
Qed.

Lemma sortM_length {A} (cmp : A -> A -> outcome (option Z)) (l out : list A) :
  sortM cmp l = Returns out -> List.length out = List.length l.
Proof.
  revert out; induction l as [|x l IH]; intros out; cbn [sortM].
  - intros [= <-]; reflexivity.
  - destruct (sortM cmp l) as [s|]; cbn [obind]; [|discriminate].
    intros H. rewrite (insertM_length _ _ _ _ H), (IH s eq_refl). reflexivity.
Qed.

Section AppFrames.
Context {host : Host}.

Lemma listNotes_None_length (w : world) (all : list value) :
  listNotes None w = Returns all -> List.length all = List.length (stored w).
Proof. intros H. exact (sortM_length _ _ _ H). Qed.

Lemma updateNote_count (id fields : option value) (w : world) :
  List.length (stored (snd (updateNote id fields w))) = List.length (stored w).
Proof.
  unfold updateNote, bind, gets, lift, ret, now_iso.
  fold (stored w).
  destruct (findIndexM (has_id id) (stored w)) as [[i|]|]; cbv beta iota;
    cbn [snd]; try reflexivity.
  fold (ticked w).
  match goal with |- context [normalizeNote ?a (ticked w)] =>
    pose proof (normalizeNote_frame a (ticked w)) as [Fs _];
    destruct (normalizeNote a (ticked w)) as [[note|] w1]
  end; cbn [fst snd] in *.
  - rewrite writeStore_with_notes. cbn [snd].
    rewrite (holding_stored _ _ (holding_insert _ _ _ _ _)).
    apply set_nth_length.
  - unfold stored. rewrite (readStore_same_storage (ticked w) w1 Fs). reflexivity.
Qed.

Lemma refreshTagList_world (st : AppState) (w : world) : snd (refreshTagList st w) = w.
Proof. unfold refreshTagList, bind, look, ret. destruct (listTags w); reflexivity. Qed.

Lemma refreshNotesList_world (st : AppState) (w : world) : snd (refreshNotesList st w) = w.
Proof.
  unfold refreshNotesList, bind, look, lift, ret.
  destruct (listNotes _ w) as [notes|]; [|reflexivity].
  destruct (for_of notes _ tt); [|reflexivity].
  destruct (_ && _); [|reflexivity].
  destruct (get _ _); reflexivity.
Qed.

Lemma onTagsChanged_count (tags : list string) (st : AppState) (w : world) :
  List.length (stored (snd (onTagsChanged tags st w))) = List.length (stored w).
Proof.
  unfold onTagsChanged. destruct (negb (truthy (selectedId st))); [reflexivity|].
  apply bind_count; [apply updateNote_count|].
  intros _ w1. apply bind_count.
  - rewrite refreshTagList_world; reflexivity.
  - intros st1 w2. rewrite refreshNotesList_world; reflexivity.
Qed.

Lemma notify_count (calls : list (list string)) (st : AppState) (w : world) :
  List.length (stored (snd (notify calls st w))) = List.length (stored w).
Proof.
  revert st w; induction calls as [|tags rest IH]; intros st w; [reflexivity|].
  cbn [notify]. apply bind_count; [apply onTagsChanged_count|].
  intros st1 w1. apply IH.
Qed.

Lemma renderEditor_count (note : option value) (st : AppState) (w : world) :
  List.length (stored (snd (renderEditor note st w))) = List.length (stored w).
Proof.
  unfold renderEditor. apply bind_count; [reflexivity|].
  intros next w1. apply notify_count.
Qed.

(** X21: [refresh()] never leaves the store without a note, and never
    takes one away: when it returns, a store that had notes has as many as
    before, and a store that had none has one. *)
Theorem refresh_leaves_a_note (st st' : AppState) (w w' : world) :
  refresh st w = (Returns st', w') ->
  stored w' <> [] /\
  (stored w <> [] -> List.length (stored w') = List.length (stored w)) /\
  (stored w = [] -> List.length (stored w') = 1%nat).
Proof.
  intros H. unfold refresh in H.
  apply bind_returns in H as (all & w1 & Hall & H).
  unfold look in Hall. injection Hall as Hall <-.
  pose proof (listNotes_None_length w all Hall) as Hlen.
  apply bind_returns in H as (st1 & w2 & Hfirst & H).
  assert (Hrest : List.length (stored w') = List.length (stored w2)).
  { change w' with (snd (Returns st', w')). rewrite <- H.
    apply bind_count; [rewrite refreshTagList_world; reflexivity|].
    intros st2 w3. apply bind_count; [rewrite refreshNotesList_world; reflexivity|].
    intros st3 w4. apply bind_count; [reflexivity|].
    intros note w5. apply renderEditor_count. }
  assert (Hcount : List.length (stored w2)
                   = if Nat.eqb (List.length (stored w)) 0 then 1%nat
                     else List.length (stored w)).
  { rewrite <- Hlen. destruct (Nat.eqb (List.length all) 0) eqn:E.
    - apply bind_returns in Hfirst as (welcome & w3 & Hc & Hr).
      unfold ret in Hr. injection Hr as _ <-.
      destruct (createNote_inv _ _ _ _ Hc) as (_ & Hh & _).
      rewrite (holding_stored _ _ Hh), List.length_app, <- Hlen.
      apply Nat.eqb_eq in E. rewrite E. reflexivity.
    - unfold ret in Hfirst. injection Hfirst as _ <-. symmetry; exact Hlen. }
  rewrite Hcount in Hrest. clear - Hrest.
  destruct (stored w) as [|x l]; cbn [List.length Nat.eqb] in Hrest.
  - split; [|split]; [| congruence | intros _; exact Hrest].
    intros E; rewrite E in Hrest; discriminate Hrest.
  - split; [|split]; [| intros _; exact Hrest | discriminate].
    intros E; rewrite E in Hrest; discriminate Hrest.
Qed.
End AppFrames.

Lemma strings_map_JStr (ts : list string) : strings (map JStr ts) = Returns ts.
Proof.
  induction ts as [|t ts IH]; [reflexivity|].
  cbn [map strings]. rewrite IH. reflexivity.
Qed.

Lemma clean_tags_fixed (ts : list string) : tags_ok ts -> clean_tags (Some ts) = ts.
Proof.
  intros H. unfold clean_tags. rewrite Set_values_first_seen. apply tags_ok_clean, H.
Qed.

Lemma Note_value_tags_are_strings (n : Note) : tags_are_strings (Note_value n).
Proof.
  split; [discriminate|]. right. exists (tags n). apply Note_value_fields.
Qed.

Lemma list_options_Options (st : AppState) :
  list_options st
  = Options_value
      (mkOptions match app_filter st with FilterTag v => Some v | _ => None end
                 (Some match app_filter st with FilterFavorites => true | _ => false end)
                 (Some (query st))).
Proof.
  unfold list_options, Options_value. destruct (app_filter st); reflexivity.
Qed.

Lemma noteListItem_Notes (out : list Note) :
  for_of (map Note_value out) (fun _ n => noteListItem n) tt = Returns tt.
Proof.
  induction out as [|n out IH]; [reflexivity|].
  cbn [map for_of]. unfold noteListItem at 1.
  unfold Note_value at 1 2 3. rewrite !note_object_get.
  cbn [obind]. rewrite note_object_content.
  destruct (content n); cbn [or_else truthy as_string obind]; exact IH.
Qed.

Section AppRuns.
Context {host : Host} {laws : HostLaws host}.

Lemma listTags_returns (w : world) :
  Forall tags_are_strings (stored w) -> exists out, listTags w = Returns out.
Proof.
  intros H.
  destruct (sortM_total (fun a b => Returns (Some (localeCompare (tag a) (tag b))))
                        (fun _ => True))
    with (l := map (fun kc => mkTagCount (fst kc) (snd kc))
                   (fold_left bump (counted_tags (stored w)) []))
    as (out & Hs & _).
  { intros a b _ _. eexists; reflexivity. }
  { apply List.Forall_forall; trivial. }
  exists out. unfold listTags. fold (stored w).
  rewrite (for_of_count_tags_raw _ _ H). exact Hs.
Qed.

Lemma refreshTagList_run (ns : list Note) (st : AppState) (w : world) :
  holding (map Note_value ns) w -> refreshTagList st w = (Returns st, w).
Proof.
  intros Hh. destruct (listTags_returns w) as (out & Ho).
  { rewrite (holding_stored _ _ Hh). apply List.Forall_forall. intros v Hv.
    apply List.in_map_iff in Hv as (n & <- & _). apply Note_value_tags_are_strings. }
  unfold refreshTagList, bind, look, ret. rewrite Ho. reflexivity.
Qed.
Lemma refreshNotesList_listing (ns : list Note) (st : AppState) (w : world) :
  holding (map Note_value ns) w ->
  exists out, listNotes (Some (list_options st)) w = Returns (map Note_value out).
Proof.
  intros Hh. rewrite list_options_Options, (listNotes_filters _ ns w Hh).
  match goal with |- context [sortNotes (map Note_value ?l)] =>
    destruct (sortNotes_total l) as (out & Ho & _)
  end.
  exists out. exact Ho.
Qed.

Lemma refreshNotesList_selected (ns : list Note) (st : AppState) (w : world) :
  holding (map Note_value ns) w ->
  truthy (selectedId st) = true ->
  refreshNotesList st w = (Returns st, w).
Proof.
  intros Hh Hsel. destruct (refreshNotesList_listing ns st w Hh) as (out & Ho).
  unfold refreshNotesList, bind, look, lift, ret.
  rewrite Ho, noteListItem_Notes, Hsel. reflexivity.
Qed.

Lemma refreshNotesList_first (st : AppState) (w : world) (out : list Note) :
  truthy (selectedId st) = false ->
  listNotes (Some (list_options st)) w = Returns (map Note_value out) ->
  refreshNotesList st w
  = (Returns match out with
             | [] => st
             | top :: _ => select (Some (JStr (id top))) st
             end, w).
Proof.
  intros Hsel Ho.
  unfold refreshNotesList, bind, look, lift, ret.
  rewrite Ho, noteListItem_Notes, Hsel. cbn [negb andb].
  destruct out as [|top rest]; [reflexivity|].
  cbn [map List.length Nat.eqb negb nth]. unfold Note_value at 1.
  rewrite note_object_get, note_object_id. reflexivity.
Qed.

Lemma onTagsChanged_run
    (ts : list string) (before after : list Note) (n : Note) (st : AppState) (w : world) :
  holding (map Note_value (before ++ n :: after)) w ->
  well_formed n ->
  (forall m, List.In m before -> id m <> id n) ->
  selectedId st = Some (JStr (id n)) ->
  tags_ok ts ->
  exists w',
    onTagsChanged ts st w = (Returns st, w') /\
    holding (map Note_value (before ++ retagged n ts (toISOString_at (reads w)) :: after)) w' /\
    writes w' = S (writes w).
Proof.
  intros Hh Hwf Hfirst Hsel Hok.
  destruct (updateNote_patch_run (mkPatch None None (Some ts) None) before after n w
              Hh Hwf Hfirst) as (w' & Hu & Hh' & Hw).
  assert (E : patched n (mkPatch None None (Some ts) None) (toISOString_at (reads w))
              = retagged n ts (toISOString_at (reads w))).
  { unfold patched, retagged; cbn [p_title p_content p_tags p_favorite].
    rewrite (tags_ok_clean ts Hok). reflexivity. }
  rewrite E in Hu, Hh'.
  assert (Ht : truthy (selectedId st) = true).
  { rewrite Hsel. apply truthy_JStr. exact (proj1 Hwf). }
  exists w'. split; [|split; assumption].
  unfold onTagsChanged. rewrite Ht. cbn [negb]. rewrite Hsel, tags_patch.
  unfold bind at 1. rewrite Hu.
  unfold bind. rewrite (refreshTagList_run _ st w' Hh').
  apply (refreshNotesList_selected _ st w' Hh' Ht).
Qed.

Lemma renderEditor_run
    (before after : list Note) (n : Note) (st : AppState) (w : world) :
  holding (map Note_value (before ++ n :: after)) w ->
  well_formed n ->
  (forall m, List.In m before -> id m <> id n) ->
  selectedId st = Some (JStr (id n)) ->
  exists w',
    renderEditor (Some (Note_value n)) st w
    = (Returns (with_control (mkTagInput (tags n) (ti_value (tagControl st))) st), w') /\
    holding (map Note_value
               (before ++ retagged n (tags n) (toISOString_at (reads w)) :: after)) w' /\
    writes w' = S (writes w).
Proof.
  intros Hh Hwf Hfirst Hsel.
  destruct (onTagsChanged_run (tags n) before after n
              (with_control (mkTagInput (tags n) (ti_value (tagControl st))) st) w
              Hh Hwf Hfirst Hsel (proj2 (proj2 (proj2 Hwf)))) as (w' & Ho & Hh' & Hw).
  exists w'. split; [|split; assumption].
  unfold renderEditor.
  change (truthy (Some (Note_value n))) with true. cbn [negb].
  change (or_else (Some (Note_value n)) JNull) with (Note_value n).
  unfold Note_value at 1. rewrite note_object_tags.
  unfold tags_argument. cbn [truthy negb]. rewrite strings_map_JStr.
  unfold bind at 1, lift. unfold setTags. cbn [fst snd].
  rewrite (clean_tags_fixed _ (proj2 (proj2 (proj2 Hwf)))).
  cbn [notify]. unfold bind. rewrite Ho. reflexivity.
Qed.

(** X22: a click on a note of the list selects it and shows it in the
    editor, and showing it writes it back: for a stored note as
    [normalizeNote] leaves it, the first under its [id], the store afterwards
    holds the same notes, this one with [updatedAt] set to the time of the
    click; [setItem] is called once, and the tag input holds the note's
    tags. *)
Theorem noteItem_click_restamps
    (before after : list Note) (n : Note) (st : AppState) (w : world) :
  holding (map Note_value (before ++ n :: after)) w ->
  well_formed n ->
  (forall m, List.In m before -> id m <> id n) ->
  exists st' w',
    noteItem_click (Note_value n) st w = (Returns st', w') /\
    selectedId st' = Some (JStr (id n)) /\
    getTags (tagControl st') = tags n /\
    stored w'
    = map Note_value (before ++ retagged n (tags n) (toISOString_at (reads w)) :: after) /\
    writes w' = S (writes w).
Proof.
  intros Hh Hwf Hfirst.
  destruct (renderEditor_run before after n (select (Some (JStr (id n))) st) w
              Hh Hwf Hfirst eq_refl) as (w' & Hr & Hh' & Hw).
  eexists; exists w'. split; [|split; [|split; [|split]]].
  - unfold noteItem_click. unfold Note_value at 1.
    rewrite note_object_get, note_object_id. unfold bind at 1, lift.
    unfold bind. rewrite Hr.
    apply (refreshNotesList_selected _ _ w' Hh').
    apply truthy_JStr. exact (proj1 Hwf).
  - reflexivity.
  - reflexivity.
  - apply holding_stored, Hh'.
  - exact Hw.
Qed.
End AppRuns.
